(** * Forecast-accuracy metrics and FinOps KPIs of [advanced_metrics_evaluation.py]

    A shallow embedding of the class [AdvancedMetricsEvaluator].

    Numbers.  The program computes with IEEE doubles.  Here a finite double
    is an exact rational ([Q]); the three special values that the array
    library produces instead of raising (NaN, +inf, -inf) are kept, because
    several methods of the class reach them.  Binary rounding error is
    therefore abstracted away; everything else (masks, broadcasting, the
    exceptions of the libraries, rounding to a number of decimals) follows
    the source line by line. *)

From Stdlib Require Import ZArith QArith Qround Qabs Qreduction.
From Stdlib Require Import String.
From Stdlib Require Import List Bool Lia Lqa.
Import ListNotations.

Local Open Scope Q_scope.

(** ** Exceptions and results *)

Inductive exn : Type :=
| ValueError
| IndexError
| TypeError
| ZeroDivisionError.

Inductive result (A : Type) : Type :=
| Ok (a : A)
| Raise (e : exn).

Arguments Ok {A} a.
Arguments Raise {A} e.

Definition bind {A B : Type} (r : result A) (k : A -> result B) : result B :=
  match r with
  | Ok a => k a
  | Raise e => Raise e
  end.

Notation "x <- r ;; k" := (bind r (fun x => k))
  (at level 61, r at next level, right associativity).


(** ** Scalars of the array library *)

Inductive npfloat : Type :=
| Fin (q : Q)
| PInf
| NInf
| NaN.

Definition Qltb (a b : Q) : bool :=
  match a ?= b with
  | Lt => true
  | _ => false
  end.

(** [x / y] on scalars of the array library: a zero divisor gives NaN or an
    infinity (with a warning that the module silences at import), never an
    exception. *)
Definition fdiv (x y : npfloat) : npfloat :=
  match x, y with
  | NaN, _ | _, NaN => NaN
  | Fin a, Fin b =>
      if Qeq_bool b 0 then
        (if Qeq_bool a 0 then NaN else if Qltb 0 a then PInf else NInf)
      else Fin (a / b)
  | Fin _, _ => Fin 0
  | PInf, Fin b => if Qltb b 0 then NInf else PInf
  | NInf, Fin b => if Qltb b 0 then PInf else NInf
  | _, _ => NaN
  end.

Definition fmul (x y : npfloat) : npfloat :=
  match x, y with
  | NaN, _ | _, NaN => NaN
  | Fin a, Fin b => Fin (a * b)
  | Fin a, PInf | PInf, Fin a =>
      if Qeq_bool a 0 then NaN else if Qltb 0 a then PInf else NInf
  | Fin a, NInf | NInf, Fin a =>
      if Qeq_bool a 0 then NaN else if Qltb 0 a then NInf else PInf
  | PInf, PInf | NInf, NInf => PInf
  | PInf, NInf | NInf, PInf => NInf
  end.

(** [x != 0] *)
Definition fne0 (x : npfloat) : bool :=
  match x with
  | Fin a => negb (Qeq_bool a 0)
  | _ => true
  end.

(** [x >= y]: every comparison with NaN is false. *)
Definition fge (x y : npfloat) : bool :=
  match x, y with
  | NaN, _ | _, NaN => false
  | Fin a, Fin b => Qle_bool b a
  | PInf, _ => true
  | _, NInf => true
  | _, _ => false
  end.

(** ** [round(x, ndigits)] *)

Definition round_half_even (q : Q) : Z :=
  let f := Qfloor q in
  match ((q - inject_Z f) ?= (1 # 2))%Q with
  | Lt => f
  | Gt => (f + 1)%Z
  | Eq => if Z.even f then f else (f + 1)%Z
  end.

Definition pow10 (nd : nat) : Z := (10 ^ Z.of_nat nd)%Z.

Definition pyround (q : Q) (nd : nat) : Q :=
  Qred (inject_Z (round_half_even (q * inject_Z (pow10 nd))) / inject_Z (pow10 nd)).

Definition np_round (x : npfloat) (nd : nat) : npfloat :=
  match x with
  | Fin q => Fin (pyround q nd)
  | other => other
  end.

(** [round(np.sqrt(x), nd)].  The real square root of a rational is in
    general irrational, so the two steps are taken together: the result is
    the multiple of [10^-nd] nearest to the real root (ties to even), found
    with the integer square root.  [np.sqrt] of a negative number is NaN. *)
Definition sqrt_round (x : Q) (nd : nat) : Q :=
  let y := x * inject_Z (pow10 nd * pow10 nd) in
  let n := Z.sqrt (Qfloor y) in
  let half := inject_Z n + (1 # 2) in
  let r := match y ?= half * half with
           | Lt => n
           | Gt => (n + 1)%Z
           | Eq => if Z.even n then n else (n + 1)%Z
           end in
  Qred (inject_Z r / inject_Z (pow10 nd)).

Definition np_round_sqrt (x : npfloat) (nd : nat) : npfloat :=
  match x with
  | Fin q => if Qltb q 0 then NaN else Fin (sqrt_round q nd)
  | PInf => PInf
  | _ => NaN
  end.

(** ** One-dimensional arrays *)

Definition np_sum (xs : list Q) : Q := fold_right Qplus 0 xs.

Definition Qlen {A : Type} (xs : list A) : Q := inject_Z (Z.of_nat (length xs)).

(** [np.mean]: NaN on an empty array. *)
Definition np_mean (xs : list Q) : npfloat :=
  match xs with
  | [] => NaN
  | _ => Fin (np_sum xs / Qlen xs)
  end.

Definition np_abs (xs : list Q) : list Q := map Qabs xs.

Definition zip_with {A B C : Type} (f : A -> B -> C) (xs : list A) (ys : list B)
  : list C :=
  map (fun p => f (fst p) (snd p)) (combine xs ys).

(** An elementwise binary operation.  Shapes [(n,)] and [(m,)] are
    compatible when [n = m] or one of them is 1 (that operand is broadcast);
    otherwise the library raises [ValueError]. *)
Definition broadcast {A B C : Type} (f : A -> B -> C) (xs : list A) (ys : list B)
  : result (list C) :=
  if (length xs =? length ys)%nat then Ok (zip_with f xs ys)
  else match xs, ys with
       | [x], _ => Ok (map (f x) ys)
       | _, [y] => Ok (map (fun x => f x y) xs)
       | _, _ => Raise ValueError
       end.

(** [xs[mask]]: a boolean index must have the length of the indexed array,
    otherwise [IndexError]. *)
Fixpoint select {A : Type} (xs : list A) (mask : list bool) : list A :=
  match xs, mask with
  | x :: xs', b :: mask' => if b then x :: select xs' mask' else select xs' mask'
  | _, _ => []
  end.

Definition bool_index {A : Type} (xs : list A) (mask : list bool) : result (list A) :=
  if (length xs =? length mask)%nat then Ok (select xs mask) else Raise IndexError.

Definition nonzero_mask (xs : list Q) : list bool :=
  map (fun x => negb (Qeq_bool x 0)) xs.

Fixpoint insert_sorted (x : Q) (xs : list Q) : list Q :=
  match xs with
  | [] => [x]
  | y :: ys => if Qle_bool x y then x :: xs else y :: insert_sorted x ys
  end.

Definition sort (xs : list Q) : list Q := fold_right insert_sorted [] xs.

(** [np.median]: NaN on an empty array, the middle element of the sorted
    array for an odd length, the mean of the two middle ones otherwise. *)
Definition np_median (xs : list Q) : npfloat :=
  let s := sort xs in
  let n := length s in
  match n with
  | O => NaN
  | _ =>
      if Nat.even n
      then Fin ((nth (n / 2 - 1)%nat s 0 + nth (n / 2)%nat s 0) / 2)
      else Fin (nth (n / 2)%nat s 0)
  end.

Definition count_true (bs : list bool) : nat := length (filter (fun b => b) bs).

(** ** The three functions imported from [sklearn.metrics]

    Library code, modelled from its documented behaviour: the two targets
    must have the same number of samples and at least one, otherwise
    [ValueError]. *)
Module sklearn.

Definition check_reg_targets (y_true y_pred : list Q) : result unit :=
  if negb (length y_true =? length y_pred)%nat then Raise ValueError
  else match y_true with
       | [] => Raise ValueError
       | _ => Ok tt
       end.

Definition mean_absolute_error (y_true y_pred : list Q) : result npfloat :=
  _ <- check_reg_targets y_true y_pred ;;
  Ok (np_mean (np_abs (zip_with Qminus y_pred y_true))).

Definition mean_squared_error (y_true y_pred : list Q) : result npfloat :=
  _ <- check_reg_targets y_true y_pred ;;
  Ok (np_mean (map (fun d => d * d) (zip_with Qminus y_true y_pred))).

Definition mean_of (xs : list Q) : Q := np_sum xs / Qlen xs.

(** [r2_score]: NaN (and a warning) for fewer than two samples; otherwise
    [1 - SS_res / SS_tot], with the documented finite replacements when
    [SS_tot] is zero: 1 for a perfect prediction, 0 otherwise. *)
Definition r2_score (y_true y_pred : list Q) : result npfloat :=
  _ <- check_reg_targets y_true y_pred ;;
  if (length y_pred <? 2)%nat then Ok NaN
  else
    let numerator := np_sum (map (fun d => d * d) (zip_with Qminus y_true y_pred)) in
    let m := mean_of y_true in
    let denominator := np_sum (map (fun y => (y - m) * (y - m)) y_true) in
    if Qeq_bool denominator 0
    then (if Qeq_bool numerator 0 then Ok (Fin 1) else Ok (Fin 0))
    else Ok (Fin (1 - numerator / denominator)).

End sklearn.

(** ** The evaluator *)

Record AdvancedMetricsEvaluator : Type := {
  actual : list Q;
  predicted : list Q;
  forecast_lower : option (list Q);
  forecast_upper : option (list Q)
}.

(** [AdvancedMetricsEvaluator(actual, predicted)] *)
Definition evaluator (a p : list Q) : AdvancedMetricsEvaluator :=
  {| actual := a; predicted := p; forecast_lower := None; forecast_upper := None |}.

(** [AdvancedMetricsEvaluator(actual, predicted, lower, upper)] *)
Definition evaluator_with_interval (a p lo up : list Q) : AdvancedMetricsEvaluator :=
  {| actual := a; predicted := p; forecast_lower := Some lo; forecast_upper := Some up |}.

Definition hundred : npfloat := Fin 100.

(** *** Forecast accuracy metrics *)

Definition calculate_mape (self : AdvancedMetricsEvaluator) : result npfloat :=
  let mask := nonzero_mask (actual self) in
  a_m <- bool_index (actual self) mask ;;
  p_m <- bool_index (predicted self) mask ;;
  diff <- broadcast Qminus a_m p_m ;;
  quot <- broadcast Qdiv diff a_m ;;
  let mape := fmul (np_mean (np_abs quot)) hundred in
  Ok (np_round mape 2).

Definition calculate_smape (self : AdvancedMetricsEvaluator) : result npfloat :=
  diff <- broadcast Qminus (actual self) (predicted self) ;;
  let numerator := np_abs diff in
  total <- broadcast Qplus (np_abs (actual self)) (np_abs (predicted self)) ;;
  let denominator := map (fun t => t / 2) total in
  let mask := nonzero_mask denominator in
  n_m <- bool_index numerator mask ;;
  d_m <- bool_index denominator mask ;;
  quot <- broadcast Qdiv n_m d_m ;;
  let smape := fmul (np_mean quot) hundred in
  Ok (np_round smape 2).

Definition calculate_wape (self : AdvancedMetricsEvaluator) : result npfloat :=
  diff <- broadcast Qminus (actual self) (predicted self) ;;
  let wape :=
    fmul (fdiv (Fin (np_sum (np_abs diff))) (Fin (np_sum (np_abs (actual self)))))
         hundred in
  Ok (np_round wape 2).

Definition calculate_mae (self : AdvancedMetricsEvaluator) : result npfloat :=
  mae <- sklearn.mean_absolute_error (actual self) (predicted self) ;;
  Ok (np_round mae 2).

Definition calculate_rmse (self : AdvancedMetricsEvaluator) : result npfloat :=
  mse <- sklearn.mean_squared_error (actual self) (predicted self) ;;
  Ok (np_round_sqrt mse 2).

Definition calculate_mdape (self : AdvancedMetricsEvaluator) : result npfloat :=
  let mask := nonzero_mask (actual self) in
  a_m <- bool_index (actual self) mask ;;
  p_m <- bool_index (predicted self) mask ;;
  diff <- broadcast Qminus a_m p_m ;;
  quot <- broadcast Qdiv diff a_m ;;
  let ape := map (fun x => x * 100) (np_abs quot) in
  let mdape := np_median ape in
  Ok (np_round mdape 2).

Definition calculate_r2 (self : AdvancedMetricsEvaluator) : result npfloat :=
  r2 <- sklearn.r2_score (actual self) (predicted self) ;;
  Ok (np_round r2 3).

Definition calculate_bias (self : AdvancedMetricsEvaluator) : result npfloat :=
  diff <- broadcast Qminus (predicted self) (actual self) ;;
  let bias := np_mean diff in
  Ok (np_round bias 2).

Definition calculate_bias_percentage (self : AdvancedMetricsEvaluator)
  : result npfloat :=
  let mean_actual := np_mean (actual self) in
  diff <- broadcast Qminus (predicted self) (actual self) ;;
  let bias := np_mean diff in
  let bias_pct :=
    if fne0 mean_actual then fmul (fdiv bias mean_actual) hundred else Fin 0 in
  Ok (np_round bias_pct 2).

(** [None] of the source is [None] here. *)
Definition calculate_picp (self : AdvancedMetricsEvaluator)
  : result (option npfloat) :=
  match forecast_lower self, forecast_upper self with
  | Some lower, Some upper =>
      above <- broadcast (fun a l => Qle_bool l a) (actual self) lower ;;
      below <- broadcast (fun a u => Qle_bool a u) (actual self) upper ;;
      both <- broadcast andb above below ;;
      let inside_interval := count_true both in
      let picp :=
        fmul (fdiv (Fin (inject_Z (Z.of_nat inside_interval))) (Fin (Qlen (actual self))))
             hundred in
      Ok (Some (np_round picp 2))
  | _, _ => Ok None
  end.


(** Values stored in the dictionary of metrics. *)
Inductive pyval : Type :=
| PyFloat (x : npfloat)
| PyNone.

Definition of_option (o : option npfloat) : pyval :=
  match o with
  | Some x => PyFloat x
  | None => PyNone
  end.

(** A dictionary literal: keys in insertion order; the values are evaluated
    top to bottom and the first exception leaves the method. *)
Definition dict : Type := list (string * pyval).

Fixpoint get (d : dict) (k : string) : option pyval :=
  match d with
  | [] => None
  | (k', v) :: d' => if String.eqb k k' then Some v else get d' k
  end.

Definition keys (d : dict) : list string := map fst d.

Definition get_all_forecast_metrics (self : AdvancedMetricsEvaluator) : result dict :=
  mape <- calculate_mape self ;;
  smape <- calculate_smape self ;;
  wape <- calculate_wape self ;;
  mae <- calculate_mae self ;;
  rmse <- calculate_rmse self ;;
  mdape <- calculate_mdape self ;;
  r2 <- calculate_r2 self ;;
  bias <- calculate_bias self ;;
  bias_pct <- calculate_bias_percentage self ;;
  picp <- calculate_picp self ;;
  Ok [ ("MAPE (%)"%string, PyFloat mape);
       ("sMAPE (%)"%string, PyFloat smape);
       ("WAPE (%)"%string, PyFloat wape);
       ("MAE (INR)"%string, PyFloat mae);
       ("RMSE (INR)"%string, PyFloat rmse);
       ("MdAPE (%)"%string, PyFloat mdape);
       ("R¬≤ Score"%string, PyFloat r2);
       ("Bias (INR)"%string, PyFloat bias);
       ("Bias (%)"%string, PyFloat bias_pct);
       ("PICP (%)"%string, of_option picp) ].

(** *** FinOps KPIs

    Static methods over plain numbers.  Each division sits behind its own
    guard, so no exception of the division itself can be reached. *)

Definition calculate_waste_rate (total_cost idle_cost : Q) : Q :=
  let waste_rate :=
    if Qltb 0 total_cost then (idle_cost / total_cost) * 100 else 0 in
  pyround waste_rate 2.

Record budget_variance : Type := {
  variance_inr : Q;
  variance_pct : Q
}.

Definition calculate_budget_variance (actual_cost budgeted_cost : Q)
  : budget_variance :=
  let variance := actual_cost - budgeted_cost in
  let pct := if Qltb 0 budgeted_cost then (variance / budgeted_cost) * 100 else 0 in
  {| variance_inr := pyround variance 2; variance_pct := pyround pct 2 |}.






Section Power.

(** The real power [b ** e] where it exists (a base that is not negative,
    or an integer exponent).  Its value is irrational in general and no
    statement below depends on it. *)
Variable real_pow : Q -> Q -> Q.



End Power.

Definition calculate_unit_cost (total_cost total_units : Q) : Q :=
  let unit_cost := if Qltb 0 total_units then total_cost / total_units else 0 in
  pyround unit_cost 2.

Definition calculate_ri_sp_coverage (total_hours covered_hours : Q) : Q :=
  let coverage :=
    if Qltb 0 total_hours then (covered_hours / total_hours) * 100 else 0 in
  pyround coverage 2.

Definition calculate_ri_sp_utilization (purchased_hours used_hours : Q) : Q :=
  let utilization :=
    if Qltb 0 purchased_hours then (used_hours / purchased_hours) * 100 else 0 in
  pyround utilization 2.

Definition calculate_tag_compliance (total_resources tagged_resources : Q) : Q :=
  let compliance :=
    if Qltb 0 total_resources then (tagged_resources / total_resources) * 100 else 0 in
  pyround compliance 2.

(** *** KPIs over an array of costs *)



(** The mean of the squared deviations from the mean (no degrees-of-freedom
    correction), on a non-empty array. *)
Definition variance (xs : list Q) : Q :=
  let m := np_sum xs / Qlen xs in
  np_sum (map (fun x => (x - m) * (x - m)) xs) / Qlen xs.










(** *** The grouping of [plot_metrics_comparison]

    The three dictionary comprehensions that choose what each panel of the
    chart shows; the drawing itself is not modelled. *)

(** [sub in k] *)
Definition contains (sub k : string) : bool :=
  match index 0 sub k with
  | Some _ => true
  | None => false
  end.

Definition is_not_none (v : pyval) : bool :=
  match v with
  | PyNone => false
  | PyFloat _ => true
  end.

Definition pct_metrics (metrics : dict) : dict :=
  filter (fun kv => contains "(%)" (fst kv) && is_not_none (snd kv)) metrics.

Definition abs_metrics (metrics : dict) : dict :=
  filter (fun kv => contains "(INR)" (fst kv) && is_not_none (snd kv)) metrics.

Definition other_metrics (metrics : dict) : dict :=
  filter (fun kv => negb (contains "(%)" (fst kv))
                    && negb (contains "(INR)" (fst kv))
                    && is_not_none (snd kv)) metrics.

(** *** [generate_comprehensive_metrics_report]

    The function prints, plots and writes files; two pure parts of it are
    modelled: how it builds the evaluator from the cost column, and how it
    assembles the summary table. *)

(** [x[-k:]]: the last [k] elements, and the whole array for [k = 0]. *)
Definition last_k {A : Type} (k : nat) (xs : list A) : list A :=
  if (k =? 0)%nat then xs else skipn (length xs - k) xs.

Definition dot (xs ys : list Q) : Q := np_sum (zip_with Qmult xs ys).

(** [np.correlate(a, w, 'valid')] for [len(w) <= len(a)]. *)
Definition correlate_valid (a w : list Q) : list Q :=
  map (fun k => dot (firstn (length w) (skipn k a)) w)
      (seq 0 (length a - length w + 1)).

(** [np.convolve(a, v, mode='valid')]: the longer array comes first, empty
    arrays are refused, and the shorter one is reversed and slid along the
    longer one. *)
Definition np_convolve_valid (a v : list Q) : result (list Q) :=
  let (a', v') := if (length a <? length v)%nat then (v, a) else (a, v) in
  match a', v' with
  | [], _ => Raise ValueError
  | _, [] => Raise ValueError
  | _, _ => Ok (correlate_valid a' (rev v'))
  end.

(** [np.ones(7) / 7] *)
Definition week_kernel : list Q := repeat (1 # 7) 7.

(** The evaluator of the report, from the column [cost_inr]: the last
    fifth of the rows is the test set and a seven-day moving average of
    the training rows stands in for the prediction. *)
Definition report_evaluator (costs : list Q) : result AdvancedMetricsEvaluator :=
  let split_idx := Z.to_nat (Qfloor (Qlen costs * (8 # 10))) in
  let train := firstn split_idx costs in
  let test_actual := skipn split_idx costs in
  moving_average <- np_convolve_valid train week_kernel ;;
  let test_predicted := last_k (length test_actual) moving_average in
  let min_len := Nat.min (length test_actual) (length test_predicted) in
  let test_actual := firstn min_len test_actual in
  let test_predicted := firstn min_len test_predicted in
  Ok (evaluator test_actual test_predicted).

(** [v <= c] for a value of the dictionary: [None] cannot be compared. *)
Definition le_number (v : pyval) (c : Q) : result bool :=
  match v with
  | PyFloat (Fin q) => Ok (Qle_bool q c)
  | PyFloat NInf => Ok true
  | PyFloat _ => Ok false
  | PyNone => Raise TypeError
  end.

Definition pass_or_review (b : bool) : string :=
  if b then "Pass"%string else "Review"%string.

Record DataFrame : Type := {
  metric_category : list string;
  metric_name : list string;
  metric_value : list pyval;
  metric_target : list string;
  metric_status : list string
}.

(** [pd.DataFrame] of a dictionary of lists: all of the same length. *)
Definition make_frame (category name : list string) (value : list pyval)
    (target status : list string) : result DataFrame :=
  let n := length category in
  if (length name =? n)%nat && (length value =? n)%nat
     && (length target =? n)%nat && (length status =? n)%nat
  then Ok {| metric_category := category; metric_name := name;
             metric_value := value; metric_target := target;
             metric_status := status |}
  else Raise ValueError.

Definition number (q : Q) : pyval := PyFloat (Fin q).

Definition kpi_names : list string :=
  [ "Waste Rate (%)"; "Unit Cost (INR)"; "Budget Variance (%)";
    "RI/SP Coverage (%)"; "RI/SP Utilization (%)";
    "Tag Compliance (%)"; "CAGR (%)" ]%string.

Definition operational_names : list string :=
  [ "Spending Volatility (CV %)"; "Avg CPU Utilization (%)" ]%string.

Definition forecast_targets : list string :=
  [ "‚â§15%"; "‚â§15%"; "‚â§15%"; "-"; "-"; "-"; "‚â•0.85"; "¬±5%"; "¬±5%"; "93-97%" ]%string.

Definition other_targets : list string :=
  [ "<15%"; "-"; "¬±5%"; "60-80%"; "‚â•90%"; "‚â•90%"; "-"; "<20%"; "‚â•70%" ]%string.

Definition metrics_summary (forecast_metrics : dict) (waste_rate unit_cost : Q)
    (variance : budget_variance) (cagr : Q) (cv avg_cpu : npfloat)
  : result DataFrame :=
  let coverage := 65 in
  let utilization := 92 in
  let tag_compliance := 88 in
  let category :=
    (repeat "Forecast Accuracy"%string (length forecast_metrics)
     ++ repeat "FinOps KPI"%string 7 ++ repeat "Operational"%string 2)%list in
  let name := (keys forecast_metrics ++ kpi_names ++ operational_names)%list in
  let value :=
    (map snd forecast_metrics
     ++ [ number waste_rate; number unit_cost; number (variance_pct variance);
          number coverage; number utilization; number tag_compliance; number cagr ]
     ++ [ PyFloat cv; PyFloat avg_cpu ])%list in
  let target := (forecast_targets ++ other_targets)%list in
  mape_ok <- le_number (match get forecast_metrics "MAPE (%)" with
                        | Some v => v
                        | None => number 100
                        end) 15 ;;
  let status :=
    (repeat (pass_or_review mape_ok) 10
     ++ [ pass_or_review (Qltb waste_rate 15);
          "N/A"%string;
          pass_or_review (Qle_bool (Qabs (variance_pct variance)) 5);
          "Pass"%string; "Pass"%string; "Review"%string;
          "Pass"%string; "Pass"%string; "Review"%string ])%list in
  make_frame category name value target status.

(** *** Vocabulary of the further statements *)

Definition all_nonneg (xs : list Q) : Prop := Forall (fun x => 0 <= x) xs.

(** The two arrays that sMAPE divides entry by entry. *)
Definition smape_numerator (a p : list Q) : list Q := np_abs (zip_with Qminus a p).

Definition smape_denominator (a p : list Q) : list Q :=
  map (fun t => t / 2) (zip_with Qplus (np_abs a) (np_abs p)).

(** The training rows of the report: the first four fifths of the column. *)
Definition training_rows (costs : list Q) : list Q :=
  firstn (Z.to_nat (Qfloor (Qlen costs * (8 # 10)))) costs.

(** ** Vocabulary of the statements *)

Definition all_zero (xs : list Q) : Prop := Forall (fun x => x == 0) xs.

Definition some_nonzero (xs : list Q) : Prop := Exists (fun x => ~ x == 0) xs.


(** The coverage test in the words of the specification: an entry is
    covered when [lower <= actual <= upper]. *)
Definition inside (x l u : Q) : bool := Qle_bool l x && Qle_bool x u.

Fixpoint covered_entries (a lo up : list Q) : nat :=
  match a, lo, up with
  | x :: a', l :: lo', u :: up' =>
      ((if inside x l u then 1 else 0) + covered_entries a' lo' up')%nat
  | _, _, _ => O
  end.

Definition covered (a lo up : list Q) : Q :=
  inject_Z (Z.of_nat (covered_entries a lo up)).

(** [wide >= narrow] on the values returned by the method: both are
    present and compare as floats do (nothing compares with NaN). *)
Definition picp_ge (wide narrow : AdvancedMetricsEvaluator) : Prop :=
  exists x y,
    calculate_picp narrow = Ok (Some x)
    /\ calculate_picp wide = Ok (Some y)
    /\ fge y x = true.

Definition forecast_metric_keys : list string :=
  [ "MAPE (%)"; "sMAPE (%)"; "WAPE (%)"; "MAE (INR)"; "RMSE (INR)";
    "MdAPE (%)"; "R¬≤ Score"; "Bias (INR)"; "Bias (%)"; "PICP (%)" ]%string.

(** * Properties *)

(** ** Comparisons and rounding *)

Lemma Qltb_true (a b : Q) : Qltb a b = true <-> a < b.
Proof.
  unfold Qltb. rewrite Qlt_alt.
  destruct (a ?= b); split; congruence.
Qed.

Lemma Qltb_false (a b : Q) : Qltb a b = false <-> b <= a.
Proof.
  split; intro H.
  - apply Qnot_lt_le. intro Hlt. apply Qltb_true in Hlt. congruence.
  - destruct (Qltb a b) eqn:E; [|reflexivity].
    apply Qltb_true in E. exfalso. exact (Qlt_not_le _ _ E H).
Qed.

Lemma Qeq_bool_false (a b : Q) : Qeq_bool a b = false <-> ~ a == b.
Proof.
  split.
  - intros H E. apply Qeq_bool_iff in E. congruence.
  - intro H. destruct (Qeq_bool a b) eqn:E; [|reflexivity].
    apply Qeq_bool_iff in E. contradiction.
Qed.

Lemma round_half_even_proper (q q' : Q) :
  q == q' -> round_half_even q = round_half_even q'.
Proof.
  intro H. unfold round_half_even.
  rewrite (Qfloor_comp _ _ H).
  assert (E : q - inject_Z (Qfloor q') == q' - inject_Z (Qfloor q')) by (rewrite H; reflexivity).
  rewrite (Qcompare_comp _ _ E _ _ (Qeq_refl (1 # 2))).
  reflexivity.
Qed.

Lemma pyround_proper (q q' : Q) (nd : nat) :
  q == q' -> pyround q nd = pyround q' nd.
Proof.
  intro H. unfold pyround.
  rewrite (round_half_even_proper (q * inject_Z (pow10 nd)) (q' * inject_Z (pow10 nd)));
    [reflexivity | rewrite H; reflexivity].
Qed.

Lemma sqrt_round_proper (q q' : Q) (nd : nat) :
  q == q' -> sqrt_round q nd = sqrt_round q' nd.
Proof.
  intro H. unfold sqrt_round.
  assert (E : q * inject_Z (pow10 nd * pow10 nd) == q' * inject_Z (pow10 nd * pow10 nd))
    by (rewrite H; reflexivity).
  rewrite (Qfloor_comp _ _ E).
  set (h := inject_Z (Z.sqrt (Qfloor (q' * inject_Z (pow10 nd * pow10 nd)))) + (1 # 2)).
  rewrite (Qcompare_comp _ _ E _ _ (Qeq_refl (h * h))).
  reflexivity.
Qed.

(** Rounding keeps the order. *)
Lemma round_half_even_bounds (q : Q) :
  (Qfloor q <= round_half_even q <= Qfloor q + 1)%Z.
Proof.
  unfold round_half_even.
  destruct (q - inject_Z (Qfloor q) ?= 1 # 2); try destruct (Z.even (Qfloor q)); lia.
Qed.

Lemma round_half_even_mono (q q' : Q) :
  q <= q' -> (round_half_even q <= round_half_even q')%Z.
Proof.
  intro H.
  pose proof (Qfloor_resp_le _ _ H) as Hf.
  destruct (Z.eq_dec (Qfloor q) (Qfloor q')) as [E | NE].
  - unfold round_half_even. rewrite <- E.
    assert (Hd : q - inject_Z (Qfloor q) <= q' - inject_Z (Qfloor q)) by lra.
    destruct (Qcompare_spec (q - inject_Z (Qfloor q)) (1 # 2));
      destruct (Qcompare_spec (q' - inject_Z (Qfloor q)) (1 # 2));
      try destruct (Z.even (Qfloor q)); try lia; exfalso; lra.
  - pose proof (round_half_even_bounds q). pose proof (round_half_even_bounds q'). lia.
Qed.

Lemma pow10_pos (nd : nat) : (0 < pow10 nd)%Z.
Proof. unfold pow10. apply Z.pow_pos_nonneg; lia. Qed.

Lemma inject_pow10_pos (nd : nat) : 0 < inject_Z (pow10 nd).
Proof.
  replace 0 with (inject_Z 0) by reflexivity.
  rewrite <- Zlt_Qlt. apply pow10_pos.
Qed.

Lemma pyround_mono (q q' : Q) (nd : nat) :
  q <= q' -> pyround q nd <= pyround q' nd.
Proof.
  intro H. unfold pyround. rewrite !Qred_correct.
  pose proof (inject_pow10_pos nd) as Hp.
  apply Qmult_le_compat_r.
  - rewrite <- Zle_Qle. apply round_half_even_mono.
    apply Qmult_le_compat_r; [exact H | apply Qlt_le_weak; exact Hp].
  - apply Qlt_le_weak. apply Qinv_lt_0_compat. exact Hp.
Qed.



Lemma round_half_even_Z (z : Z) : round_half_even (inject_Z z) = z.
Proof.
  unfold round_half_even. rewrite Qfloor_Z.
  destruct (Qcompare_spec (inject_Z z - inject_Z z) (1 # 2)) as [E | E | E];
    [exfalso; lra | reflexivity | exfalso; lra].
Qed.

(** A value that already has [nd] decimals is returned unchanged. *)
Lemma pyround_exact (q : Q) (nd : nat) (z : Z) :
  q * inject_Z (pow10 nd) == inject_Z z -> pyround q nd == q.
Proof.
  intro H. unfold pyround. rewrite Qred_correct.
  rewrite (round_half_even_proper _ _ H), round_half_even_Z, <- H.
  pose proof (inject_pow10_pos nd). field. lra.
Qed.

(** [sqrt_round] is the rounding of the real square root: with
    [y = x * 10^(2 nd)], the returned multiple [r] of [10^-nd] satisfies
    [(r - 1/2)^2 <= y <= (r + 1/2)^2]. *)
Lemma sqrt_round_spec (x : Q) (nd : nat) :
  0 <= x ->
  let y := x * inject_Z (pow10 nd * pow10 nd) in
  exists r : Z,
    sqrt_round x nd == inject_Z r / inject_Z (pow10 nd)
    /\ (0 <= r)%Z
    /\ y <= (inject_Z r + (1 # 2)) * (inject_Z r + (1 # 2))
    /\ (r = 0%Z \/ (inject_Z r - (1 # 2)) * (inject_Z r - (1 # 2)) <= y).
Proof.
  intros Hx y.
  assert (Hy : 0 <= y).
  { unfold y. apply Qmult_le_0_compat; [exact Hx|].
    rewrite inject_Z_mult. pose proof (inject_pow10_pos nd).
    apply Qmult_le_0_compat; lra. }
  assert (Hf : (0 <= Qfloor y)%Z).
  { change 0%Z with (Qfloor 0). apply Qfloor_resp_le. exact Hy. }
  pose proof (Z.sqrt_spec (Qfloor y) Hf) as [Hlo Hhi].
  pose proof (Z.sqrt_nonneg (Qfloor y)) as Hn.
  unfold sqrt_round. fold y.
  set (n := Z.sqrt (Qfloor y)) in *.
  assert (HloQ : inject_Z n * inject_Z n <= y).
  { rewrite <- inject_Z_mult. eapply Qle_trans; [|apply Qfloor_le].
    rewrite <- Zle_Qle. exact Hlo. }
  assert (HhiQ : y < (inject_Z n + 1) * (inject_Z n + 1)).
  { eapply Qlt_le_trans; [apply Qlt_floor|].
    change 1 with (inject_Z 1). rewrite <- inject_Z_plus, <- inject_Z_mult.
    rewrite <- Zle_Qle. lia. }
  assert (HnQ : 0 <= inject_Z n).
  { change 0 with (inject_Z 0). rewrite <- Zle_Qle. exact Hn. }
  assert (Hn1 : n <> 0%Z -> 1 <= inject_Z n).
  { intro. change 1 with (inject_Z 1). rewrite <- Zle_Qle. lia. }
  assert (Hup : inject_Z (n + 1) == inject_Z n + 1).
  { rewrite inject_Z_plus. reflexivity. }
  destruct (Qcompare_spec y ((inject_Z n + (1 # 2)) * (inject_Z n + (1 # 2))))
    as [E | E | E].
  - destruct (Z.even n).
    + exists n. rewrite Qred_correct. split; [reflexivity|]. split; [exact Hn|].
      split; [lra|].
      destruct (Z.eq_dec n 0) as [E0 | E0]; [left; exact E0 | right].
      specialize (Hn1 E0). lra.
    + exists (n + 1)%Z. rewrite Qred_correct. split; [reflexivity|].
      split; [lia|]. rewrite Hup. split; [lra | right; lra].
  - exists n. rewrite Qred_correct. split; [reflexivity|]. split; [exact Hn|].
    split; [lra|].
    destruct (Z.eq_dec n 0) as [E0 | E0]; [left; exact E0 | right].
    specialize (Hn1 E0). lra.
  - exists (n + 1)%Z. rewrite Qred_correct. split; [reflexivity|].
    split; [lia|]. rewrite Hup. split; [lra | right; lra].
Qed.



(** ** FinOps KPIs *)





Section CagrFacts.

Variable real_pow : Q -> Q -> Q.






End CagrFacts.



(** ** Arrays *)

Lemma zip_with_length {A B C : Type} (f : A -> B -> C) (xs : list A) (ys : list B) :
  length xs = length ys -> length (zip_with f xs ys) = length xs.
Proof.
  intro H. unfold zip_with. rewrite length_map, length_combine, <- H.
  apply Nat.min_id.
Qed.

Lemma broadcast_same {A B C : Type} (f : A -> B -> C) (xs : list A) (ys : list B) :
  length xs = length ys -> broadcast f xs ys = Ok (zip_with f xs ys).
Proof.
  intro H. unfold broadcast. rewrite H, Nat.eqb_refl. reflexivity.
Qed.


Lemma bool_index_same {A : Type} (xs : list A) (mask : list bool) :
  length xs = length mask -> bool_index xs mask = Ok (select xs mask).
Proof.
  intro H. unfold bool_index. rewrite H, Nat.eqb_refl. reflexivity.
Qed.


Lemma nonzero_mask_length (xs : list Q) : length (nonzero_mask xs) = length xs.
Proof. apply length_map. Qed.

Lemma np_abs_length (xs : list Q) : length (np_abs xs) = length xs.
Proof. apply length_map. Qed.

Lemma select_length {A : Type} (xs : list A) (mask : list bool) :
  length xs = length mask -> length (select xs mask) = count_true mask.
Proof.
  revert mask. induction xs as [|x xs IH]; intros [|b mask] H; simpl in *;
    try reflexivity; try discriminate.
  injection H as H. destruct b; unfold count_true in *; simpl; rewrite IH; auto.
Qed.

Lemma np_sum_all_zero (xs : list Q) : all_zero xs -> np_sum xs == 0.
Proof.
  induction 1 as [|x xs Hx _ IH]; simpl.
  - reflexivity.
  - rewrite Hx, IH. reflexivity.
Qed.

Lemma np_abs_all_zero (xs : list Q) : all_zero xs -> all_zero (np_abs xs).
Proof.
  induction 1 as [|x xs Hx _ IH]; simpl; constructor; auto.
  rewrite Hx. reflexivity.
Qed.

Lemma map_all_zero (f : Q -> Q) (xs : list Q) :
  (forall x, x == 0 -> f x == 0) -> all_zero xs -> all_zero (map f xs).
Proof.
  intros Hf. induction 1; simpl; constructor; auto.
Qed.

Lemma select_all_zero (xs : list Q) (mask : list bool) :
  all_zero xs -> all_zero (select xs mask).
Proof.
  intro H. revert mask. induction H as [|x xs Hx _ IH]; intros [|b mask]; simpl;
    try (constructor; fail).
  destruct b; [constructor; [exact Hx | apply IH] | apply IH].
Qed.

Lemma zip_minus_self (xs : list Q) : all_zero (zip_with Qminus xs xs).
Proof.
  induction xs as [|x xs IH]; simpl; constructor; auto.
  simpl. ring.
Qed.

Lemma zip_div_all_zero (xs ys : list Q) :
  all_zero xs -> all_zero (zip_with Qdiv xs ys).
Proof.
  intro H. revert ys. induction H as [|x xs Hx _ IH]; intros [|y ys]; simpl;
    try (constructor; fail).
  constructor; [|apply IH].
  simpl. unfold Qdiv. rewrite Hx. ring.
Qed.

Lemma nonempty_length {A : Type} (xs : list A) : (0 < length xs)%nat -> xs <> [].
Proof. destruct xs; simpl; [lia | discriminate]. Qed.

Lemma count_true_nonzero_mask (ds : list Q) :
  some_nonzero ds -> (0 < count_true (nonzero_mask ds))%nat.
Proof.
  unfold count_true.
  induction 1 as [d ds Hd | d ds _ IH]; simpl.
  - apply Qeq_bool_false in Hd. rewrite Hd. simpl. lia.
  - destruct (negb (Qeq_bool d 0)); simpl; lia.
Qed.

Lemma Qlen_pos {A : Type} (xs : list A) : xs <> [] -> 0 < Qlen xs.
Proof.
  intro H. unfold Qlen.
  replace 0 with (inject_Z 0) by reflexivity. rewrite <- Zlt_Qlt.
  destruct xs; [contradiction | simpl; lia].
Qed.

(** The mean of a non-empty array of zeros, scaled and rounded, is 0. *)
Lemma np_mean_all_zero (xs : list Q) :
  xs <> [] -> all_zero xs -> exists q, np_mean xs = Fin q /\ q == 0.
Proof.
  intros Hne Hz. destruct xs as [|x xs]; [contradiction|].
  eexists. split; [reflexivity|].
  rewrite (np_sum_all_zero _ Hz).
  unfold Qdiv. ring.
Qed.

Lemma rounded_mean_zero (xs : list Q) (nd : nat) :
  xs <> [] -> all_zero xs -> np_round (np_mean xs) nd = Fin (pyround 0 nd).
Proof.
  intros Hne Hz. destruct (np_mean_all_zero xs Hne Hz) as [q [E Hq]].
  rewrite E. simpl. f_equal. apply pyround_proper. exact Hq.
Qed.

Lemma rounded_pct_mean_zero (xs : list Q) :
  xs <> [] -> all_zero xs -> np_round (fmul (np_mean xs) hundred) 2 = Fin 0.
Proof.
  intros Hne Hz. destruct (np_mean_all_zero xs Hne Hz) as [q [E Hq]].
  rewrite E. simpl. f_equal.
  rewrite (pyround_proper _ 0); [reflexivity | rewrite Hq; ring].
Qed.

Lemma np_sum_abs_nonneg (xs : list Q) : 0 <= np_sum (np_abs xs).
Proof.
  induction xs as [|x xs IH]; simpl.
  - apply Qle_refl.
  - pose proof (Qabs_nonneg x). lra.
Qed.

Lemma np_sum_abs_pos (xs : list Q) : some_nonzero xs -> 0 < np_sum (np_abs xs).
Proof.
  induction 1 as [x xs Hx | x xs _ IH]; simpl.
  - pose proof (np_sum_abs_nonneg xs). pose proof (Qabs_nonneg x).
    assert (~ Qabs x == 0).
    { intro E. apply Hx. revert E. apply Qabs_case; intros; lra. }
    lra.
  - pose proof (Qabs_nonneg x). lra.
Qed.

(** ** Forecast accuracy metrics: zero denominators *)

(** C1.  When the denominator [sum(|actual|)] of WAPE is zero (on
    equal-length inputs), [calculate_wape] returns no sentinel: the result
    is NaN when the numerator is zero as well and +infinity otherwise. *)
Theorem calculate_wape_zero_denominator (a p : list Q) :
  length a = length p ->
  np_sum (np_abs a) == 0 ->
  calculate_wape (evaluator a p)
  = Ok (if Qeq_bool (np_sum (np_abs (zip_with Qminus a p))) 0 then NaN else PInf).
Proof.
  intros Hlen Hden. unfold calculate_wape. simpl.
  rewrite (broadcast_same _ _ _ Hlen). simpl.
  apply Qeq_bool_iff in Hden. rewrite Hden.
  destruct (Qeq_bool (np_sum (np_abs (zip_with Qminus a p))) 0) eqn:E.
  - reflexivity.
  - assert (Hpos : Qltb 0 (np_sum (np_abs (zip_with Qminus a p))) = true).
    { apply Qltb_true. apply Qeq_bool_false in E.
      pose proof (np_sum_abs_nonneg (zip_with Qminus a p)). lra. }
    rewrite Hpos. reflexivity.
Qed.

Lemma calculate_wape_zero_denominator_witness :
  calculate_wape (evaluator [0; 0] [0; 0]) = Ok NaN
  /\ calculate_wape (evaluator [0; 0] [1; 2]) = Ok PInf.
Proof.
  split.
  - rewrite (calculate_wape_zero_denominator [0; 0] [0; 0]); reflexivity.
  - rewrite (calculate_wape_zero_denominator [0; 0] [1; 2]); reflexivity.
Defined.

(** C2.  Degenerate inputs do not all end in a finite fallback value.  With
    an all-zero [actual], MAPE and MdAPE mask every entry away and return
    NaN, and WAPE returns +infinity; on empty inputs MAPE, sMAPE, WAPE,
    MdAPE, Bias and Bias % return NaN, while MAE, RMSE and R2 raise
    [ValueError].  The guarded Bias % does return its fallback 0 when the
    mean of [actual] is zero. *)
Theorem degenerate_inputs_not_defined :
  calculate_mape (evaluator [0; 0] [1; 2]) = Ok NaN
  /\ calculate_mdape (evaluator [0; 0] [1; 2]) = Ok NaN
  /\ calculate_wape (evaluator [0; 0] [1; 2]) = Ok PInf
  /\ calculate_bias_percentage (evaluator [0; 0] [1; 2]) = Ok (Fin 0)
  /\ calculate_mape (evaluator [] []) = Ok NaN
  /\ calculate_smape (evaluator [] []) = Ok NaN
  /\ calculate_wape (evaluator [] []) = Ok NaN
  /\ calculate_mdape (evaluator [] []) = Ok NaN
  /\ calculate_bias (evaluator [] []) = Ok NaN
  /\ calculate_bias_percentage (evaluator [] []) = Ok NaN
  /\ calculate_mae (evaluator [] []) = Raise ValueError
  /\ calculate_rmse (evaluator [] []) = Raise ValueError
  /\ calculate_r2 (evaluator [] []) = Raise ValueError.
Proof. repeat split; reflexivity. Qed.

(** ** Forecast accuracy metrics: a perfect forecast *)

Lemma smape_denominator_nonzero (xs : list Q) :
  some_nonzero xs ->
  some_nonzero (map (fun t => t / 2) (zip_with Qplus (np_abs xs) (np_abs xs))).
Proof.
  induction 1 as [x xs Hx | x xs _ IH].
  - apply Exists_cons_hd. simpl. intro E. apply Hx.
    assert (Ha : Qabs x == 0).
    { rewrite <- E. field. }
    revert Ha. clear E. apply Qabs_case; intros; lra.
  - apply Exists_cons_tl. exact IH.
Qed.

Section PerfectForecast.

Variable a : list Q.
Hypothesis Hnz : some_nonzero a.

Let self := evaluator a a.

Lemma perfect_nonempty : a <> [].
Proof. destruct Hnz; discriminate. Qed.

Lemma perfect_diff_nonempty : zip_with Qminus a a <> [].
Proof.
  apply nonempty_length. rewrite zip_with_length by reflexivity.
  pose proof perfect_nonempty. destruct a; [contradiction | simpl; lia].
Qed.

Lemma perfect_targets : sklearn.check_reg_targets a a = Ok tt.
Proof.
  unfold sklearn.check_reg_targets. rewrite Nat.eqb_refl. simpl.
  pose proof perfect_nonempty. destruct a; [contradiction | reflexivity].
Qed.

Lemma perfect_mae : calculate_mae self = Ok (Fin 0).
Proof.
  unfold calculate_mae, sklearn.mean_absolute_error. simpl.
  rewrite perfect_targets. simpl.
  rewrite rounded_mean_zero.
  - reflexivity.
  - unfold np_abs. intro E. apply map_eq_nil in E.
    exact (perfect_diff_nonempty E).
  - apply np_abs_all_zero, zip_minus_self.
Qed.

Lemma perfect_rmse : calculate_rmse self = Ok (Fin 0).
Proof.
  unfold calculate_rmse, sklearn.mean_squared_error. simpl.
  rewrite perfect_targets. simpl.
  destruct (np_mean_all_zero (map (fun d => d * d) (zip_with Qminus a a)))
    as [q [E Hq]].
  - intro E. apply map_eq_nil in E. exact (perfect_diff_nonempty E).
  - apply map_all_zero; [|apply zip_minus_self].
    intros x Hx. rewrite Hx. ring.
  - rewrite E. simpl.
    assert (Hlt : Qltb q 0 = false) by (apply Qltb_false; lra).
    rewrite Hlt, (sqrt_round_proper q 0 2 Hq). reflexivity.
Qed.

Lemma perfect_masked_nonempty : select a (nonzero_mask a) <> [].
Proof.
  apply nonempty_length.
  rewrite select_length by (symmetry; apply nonzero_mask_length).
  apply count_true_nonzero_mask. exact Hnz.
Qed.

Lemma perfect_mape : calculate_mape self = Ok (Fin 0).
Proof.
  unfold calculate_mape. simpl.
  rewrite bool_index_same by (symmetry; apply nonzero_mask_length). simpl.
  set (a_m := select a (nonzero_mask a)).
  rewrite broadcast_same by reflexivity. simpl.
  rewrite broadcast_same by (apply zip_with_length; reflexivity). simpl.
  rewrite rounded_pct_mean_zero.
  - reflexivity.
  - apply nonempty_length. rewrite np_abs_length.
    rewrite zip_with_length by (apply zip_with_length; reflexivity).
    rewrite zip_with_length by reflexivity.
    pose proof perfect_masked_nonempty. fold a_m in H.
    destruct a_m; [contradiction | simpl; lia].
  - apply np_abs_all_zero, zip_div_all_zero, zip_minus_self.
Qed.

Lemma perfect_smape : calculate_smape self = Ok (Fin 0).
Proof.
  unfold calculate_smape. simpl.
  rewrite !broadcast_same by reflexivity. simpl.
  set (numerator := np_abs (zip_with Qminus a a)).
  set (denominator := map (fun t => t / 2) (zip_with Qplus (np_abs a) (np_abs a))).
  assert (Hdl : length denominator = length a).
  { unfold denominator. rewrite length_map, zip_with_length by reflexivity.
    apply np_abs_length. }
  assert (Hnl : length numerator = length a).
  { unfold numerator. rewrite np_abs_length. apply zip_with_length. reflexivity. }
  rewrite !bool_index_same by (rewrite nonzero_mask_length; congruence). simpl.
  assert (Hsel : length (select numerator (nonzero_mask denominator))
                 = length (select denominator (nonzero_mask denominator))).
  { rewrite !select_length by (rewrite nonzero_mask_length; congruence).
    reflexivity. }
  rewrite broadcast_same by exact Hsel. simpl.
  rewrite rounded_pct_mean_zero.
  - reflexivity.
  - apply nonempty_length. rewrite zip_with_length by exact Hsel.
    rewrite select_length by (rewrite nonzero_mask_length; congruence).
    apply count_true_nonzero_mask.
    apply smape_denominator_nonzero. exact Hnz.
  - apply zip_div_all_zero, select_all_zero, np_abs_all_zero, zip_minus_self.
Qed.

Lemma perfect_wape : calculate_wape self = Ok (Fin 0).
Proof.
  unfold calculate_wape. simpl.
  rewrite broadcast_same by reflexivity. simpl.
  pose proof (np_sum_abs_pos a Hnz) as Hpos.
  assert (Hd : Qeq_bool (np_sum (np_abs a)) 0 = false).
  { apply Qeq_bool_false. lra. }
  rewrite Hd. simpl. f_equal. f_equal.
  rewrite (pyround_proper _ 0); [reflexivity|].
  rewrite (np_sum_all_zero _ (np_abs_all_zero _ (zip_minus_self a))).
  field. lra.
Qed.

Lemma perfect_bias : calculate_bias self = Ok (Fin 0).
Proof.
  unfold calculate_bias. simpl.
  rewrite broadcast_same by reflexivity. simpl.
  rewrite rounded_mean_zero.
  - reflexivity.
  - exact perfect_diff_nonempty.
  - apply zip_minus_self.
Qed.

Lemma perfect_r2 : (2 <= length a)%nat -> calculate_r2 self = Ok (Fin 1).
Proof.
  intro Hlen. unfold calculate_r2, sklearn.r2_score. simpl.
  rewrite perfect_targets. simpl.
  assert (Hlt : (length a <? 2)%nat = false) by (apply Nat.ltb_ge; exact Hlen).
  rewrite Hlt.
  assert (Hnum : np_sum (map (fun d => d * d) (zip_with Qminus a a)) == 0).
  { apply np_sum_all_zero. apply map_all_zero; [|apply zip_minus_self].
    intros x Hx. rewrite Hx. ring. }
  destruct (Qeq_bool (np_sum (map (fun y => (y - sklearn.mean_of a) * (y - sklearn.mean_of a)) a)) 0) eqn:Ed.
  - apply Qeq_bool_iff in Hnum. rewrite Hnum. reflexivity.
  - simpl. f_equal. f_equal.
    rewrite (pyround_proper _ 1); [reflexivity|].
    apply Qeq_bool_false in Ed.
    rewrite Hnum. field. exact Ed.
Qed.

End PerfectForecast.

(** C3 (amended).  For every [actual] with at least one nonzero entry, if
    [predicted] equals [actual] elementwise then MAE, RMSE, MAPE, sMAPE,
    WAPE and Bias are all 0; R2 is 1 provided there are at least two
    samples. *)
Theorem perfect_forecast_metrics (a : list Q) :
  some_nonzero a ->
  calculate_mae (evaluator a a) = Ok (Fin 0)
  /\ calculate_rmse (evaluator a a) = Ok (Fin 0)
  /\ calculate_mape (evaluator a a) = Ok (Fin 0)
  /\ calculate_smape (evaluator a a) = Ok (Fin 0)
  /\ calculate_wape (evaluator a a) = Ok (Fin 0)
  /\ calculate_bias (evaluator a a) = Ok (Fin 0)
  /\ ((2 <= length a)%nat -> calculate_r2 (evaluator a a) = Ok (Fin 1)).
Proof.
  intro H. repeat split.
  - apply perfect_mae, H.
  - apply perfect_rmse, H.
  - apply perfect_mape, H.
  - apply perfect_smape, H.
  - apply perfect_wape, H.
  - apply perfect_bias, H.
  - apply perfect_r2, H.
Qed.

Lemma perfect_forecast_metrics_witness :
  calculate_rmse (evaluator [3; 0; 7] [3; 0; 7]) = Ok (Fin 0)
  /\ calculate_r2 (evaluator [3; 0; 7] [3; 0; 7]) = Ok (Fin 1).
Proof.
  assert (H : some_nonzero [3; 0; 7]) by (apply Exists_cons_hd; discriminate).
  destruct (perfect_forecast_metrics [3; 0; 7] H) as [_ [Hr [_ [_ [_ [_ H2]]]]]].
  split; [exact Hr | apply H2; simpl; lia].
Defined.

(** With a single sample the score of a perfect forecast is NaN, not 1. *)
Lemma perfect_forecast_r2_single_sample :
  some_nonzero [5]
  /\ calculate_r2 (evaluator [5] [5]) = Ok NaN
  /\ calculate_r2 (evaluator [5] [5]) <> Ok (Fin 1).
Proof.
  split; [apply Exists_cons_hd; discriminate|].
  split; [reflexivity | discriminate].
Qed.

(** ** Forecast accuracy metrics: sequences of different lengths *)


Section Mismatch.

Variables a p : list Q.
Hypothesis Hlen : length a <> length p.







End Mismatch.




(** ** Prediction interval coverage *)

Lemma inside_iff (x l u : Q) : inside x l u = true <-> l <= x /\ x <= u.
Proof.
  unfold inside. rewrite andb_true_iff, !Qle_bool_iff. reflexivity.
Qed.

Lemma covered_entries_count (a lo up : list Q) :
  length lo = length a -> length up = length a ->
  count_true (zip_with andb (zip_with (fun x l => Qle_bool l x) a lo)
                            (zip_with (fun x u => Qle_bool x u) a up))
  = covered_entries a lo up.
Proof.
  revert lo up. induction a as [|x a IH]; intros [|l lo] [|u up] Hl Hu;
    simpl in *; try discriminate; try reflexivity.
  injection Hl as Hl. injection Hu as Hu.
  specialize (IH lo up Hl Hu).
  unfold count_true, zip_with, inside in *. simpl.
  destruct (Qle_bool l x && Qle_bool x u); simpl; rewrite IH; reflexivity.
Qed.

Lemma covered_entries_mono (a lo1 up1 lo2 up2 : list Q) :
  Forall2 Qle lo2 lo1 -> Forall2 Qle up1 up2 ->
  (covered_entries a lo1 up1 <= covered_entries a lo2 up2)%nat.
Proof.
  intros Hlo. revert a up1 up2.
  induction Hlo as [|l2 l1 lo2 lo1 Hl _ IH]; intros a up1 up2 Hup.
  - destruct a; simpl; lia.
  - destruct a as [|x a]; [simpl; lia|].
    destruct Hup as [|u1 u2 up1 up2 Hu Hup]; [simpl; lia|].
    simpl. specialize (IH a up1 up2 Hup).
    destruct (inside x l1 u1) eqn:E1.
    + assert (E2 : inside x l2 u2 = true).
      { apply inside_iff in E1. apply inside_iff. destruct E1. split; lra. }
      rewrite E2. lia.
    + destruct (inside x l2 u2); lia.
Qed.

Lemma picp_value (a p lo up : list Q) :
  length lo = length a -> length up = length a ->
  calculate_picp (evaluator_with_interval a p lo up)
  = Ok (Some (np_round (fmul (fdiv (Fin (covered a lo up)) (Fin (Qlen a))) hundred) 2)).
Proof.
  intros Hl Hu. unfold calculate_picp. simpl.
  rewrite (broadcast_same _ a lo) by congruence. simpl.
  rewrite (broadcast_same _ a up) by congruence. simpl.
  rewrite broadcast_same by (rewrite !zip_with_length; congruence). simpl.
  rewrite covered_entries_count by assumption.
  reflexivity.
Qed.

Lemma picp_value_nonempty (a p lo up : list Q) :
  a <> [] -> length lo = length a -> length up = length a ->
  calculate_picp (evaluator_with_interval a p lo up)
  = Ok (Some (Fin (pyround (100 * covered a lo up / Qlen a) 2))).
Proof.
  intros Hne Hl Hu. rewrite picp_value by assumption.
  pose proof (Qlen_pos a Hne) as Hpos.
  assert (E : Qeq_bool (Qlen a) 0 = false) by (apply Qeq_bool_false; lra).
  simpl. rewrite E. simpl. do 3 f_equal.
  apply pyround_proper. field. lra.
Qed.

(** C4 (amended).  For every non-empty [actual] and two pairs of bounds of
    its length with [lower2 <= lower1] and [upper1 <= upper2] elementwise,
    the PICP of the wider interval is greater than or equal to the PICP of
    the narrower one. *)
Theorem calculate_picp_monotone (a p lo1 up1 lo2 up2 : list Q) :
  a <> [] ->
  length lo1 = length a -> length up1 = length a ->
  Forall2 Qle lo2 lo1 -> Forall2 Qle up1 up2 ->
  picp_ge (evaluator_with_interval a p lo2 up2) (evaluator_with_interval a p lo1 up1).
Proof.
  intros Hne Hl1 Hu1 Hlo Hup.
  pose proof (Forall2_length Hlo) as Hl2. pose proof (Forall2_length Hup) as Hu2.
  unfold picp_ge.
  rewrite (picp_value_nonempty a p lo1 up1) by congruence.
  rewrite (picp_value_nonempty a p lo2 up2) by congruence.
  do 2 eexists. split; [reflexivity|]. split; [reflexivity|].
  simpl. apply Qle_bool_iff. apply pyround_mono.
  pose proof (Qlen_pos a Hne) as Hpos.
  pose proof (covered_entries_mono a lo1 up1 lo2 up2 Hlo Hup) as Hc.
  assert (Hq : covered a lo1 up1 <= covered a lo2 up2).
  { unfold covered. rewrite <- Zle_Qle. lia. }
  unfold Qdiv. apply Qmult_le_compat_r.
  - lra.
  - apply Qlt_le_weak, Qinv_lt_0_compat, Hpos.
Qed.

Lemma calculate_picp_monotone_witness :
  picp_ge (evaluator_with_interval [1; 5; 9] [1; 5; 9] [0; 0; 0] [9; 9; 9])
          (evaluator_with_interval [1; 5; 9] [1; 5; 9] [2; 4; 0] [3; 6; 8]).
Proof.
  apply calculate_picp_monotone;
    try discriminate; try reflexivity;
    repeat (constructor; try discriminate).
Defined.

(** On an empty [actual] both coverages are NaN, and NaN >= NaN is false. *)
Lemma calculate_picp_monotone_empty :
  Forall2 Qle [] []
  /\ calculate_picp (evaluator_with_interval [] [] [] []) = Ok (Some NaN)
  /\ ~ picp_ge (evaluator_with_interval [] [] [] []) (evaluator_with_interval [] [] [] []).
Proof.
  split; [constructor|]. split; [reflexivity|].
  intros [x [y [Hx [Hy Hge]]]].
  compute in Hx, Hy.
  injection Hx as <-. injection Hy as <-. discriminate.
Qed.




(** ** The dictionary of all forecast metrics *)

Ltac step_metric H :=
  match type of H with
  | bind ?r _ = Ok _ =>
      let v := fresh "v" in
      let E := fresh "E" in
      destruct r as [v | ?] eqn:E; [simpl in H | discriminate H]
  end.

(** C6 (amended).  [get_all_forecast_metrics] returns a mapping with
    exactly ten entries, in this order: MAPE, sMAPE, WAPE, MAE, RMSE,
    MdAPE, R2, Bias, Bias % and PICP, each holding the value returned by
    the corresponding method; it returns whenever all ten methods return.
    MASE, which needs a naive forecast as an argument, is not an entry. *)
Theorem get_all_forecast_metrics_entries (self : AdvancedMetricsEvaluator) (d : dict) :
  get_all_forecast_metrics self = Ok d <->
  exists mape smape wape mae rmse mdape r2 bias bias_pct picp,
    (calculate_mape self = Ok mape
     /\ calculate_smape self = Ok smape
     /\ calculate_wape self = Ok wape
     /\ calculate_mae self = Ok mae
     /\ calculate_rmse self = Ok rmse
     /\ calculate_mdape self = Ok mdape
     /\ calculate_r2 self = Ok r2
     /\ calculate_bias self = Ok bias
     /\ calculate_bias_percentage self = Ok bias_pct
     /\ calculate_picp self = Ok picp)
    /\ d = [ ("MAPE (%)"%string, PyFloat mape);
             ("sMAPE (%)"%string, PyFloat smape);
             ("WAPE (%)"%string, PyFloat wape);
             ("MAE (INR)"%string, PyFloat mae);
             ("RMSE (INR)"%string, PyFloat rmse);
             ("MdAPE (%)"%string, PyFloat mdape);
             ("R¬≤ Score"%string, PyFloat r2);
             ("Bias (INR)"%string, PyFloat bias);
             ("Bias (%)"%string, PyFloat bias_pct);
             ("PICP (%)"%string, of_option picp) ]
    /\ keys d = forecast_metric_keys
    /\ Forall (fun k => prefix "MASE" k = false) (keys d).
Proof.
  split.
  - unfold get_all_forecast_metrics. intro H.
    do 10 step_metric H.
    injection H as <-.
    do 10 eexists. split; [repeat split; reflexivity|].
    split; [reflexivity|]. split; [reflexivity|].
    repeat constructor.
  - intros (mape & smape & wape & mae & rmse & mdape & r2 & bias & bias_pct & picp
            & Hm & Hd & _).
    destruct Hm as (E1 & E2 & E3 & E4 & E5 & E6 & E7 & E8 & E9 & E10).
    unfold get_all_forecast_metrics.
    rewrite E1, E2, E3, E4, E5, E6, E7, E8, E9, E10. simpl.
    rewrite Hd. reflexivity.
Qed.

(** The mapping of a concrete evaluation: ten entries, none for MASE. *)
Lemma get_all_forecast_metrics_without_mase :
  exists d,
    get_all_forecast_metrics (evaluator [100; 200; 300; 400] [110; 180; 310; 400]) = Ok d
    /\ length d = 10%nat
    /\ keys d = forecast_metric_keys
    /\ Forall (fun k => prefix "MASE" k = false) (keys d)
    /\ get d "MASE" = None.
Proof.
  eexists. split; [reflexivity|].
  split; [reflexivity|]. split; [reflexivity|].
  split; [repeat constructor | reflexivity].
Qed.

(** * Further properties of the module *)

(** ** More on rounding *)

Lemma pyround_zero (nd : nat) : pyround 0 nd == 0.
Proof. apply (pyround_exact 0 nd 0). ring. Qed.

Lemma pyround_nonneg (q : Q) (nd : nat) : 0 <= q -> 0 <= pyround q nd.
Proof.
  intro H. rewrite <- (pyround_zero nd). apply pyround_mono. exact H.
Qed.

Lemma pyround_nonpos (q : Q) (nd : nat) : q <= 0 -> pyround q nd <= 0.
Proof.
  intro H. rewrite <- (pyround_zero nd). apply pyround_mono. exact H.
Qed.

Lemma pyround_100 : pyround 100 2 = 100.
Proof. reflexivity. Qed.

Lemma pyround_le_100 (q : Q) : q <= 100 -> pyround q 2 <= 100.
Proof.
  intro H. apply Qle_trans with (pyround 100 2).
  - apply pyround_mono. exact H.
  - rewrite pyround_100. apply Qle_refl.
Qed.

Lemma pyround_ge_100 (q : Q) : 100 <= q -> 100 <= pyround q 2.
Proof.
  intro H. apply Qle_trans with (pyround 100 2).
  - rewrite pyround_100. apply Qle_refl.
  - apply pyround_mono. exact H.
Qed.

Lemma Qfloor_unique (q : Q) (z : Z) :
  inject_Z z <= q -> q < inject_Z z + 1 -> Qfloor q = z.
Proof.
  intros Hlo Hhi.
  pose proof (Qfloor_le q) as Fl. pose proof (Qlt_floor q) as Fh.
  rewrite inject_Z_plus in Fh. change (inject_Z 1) with 1 in Fh.
  assert (H1 : inject_Z z < inject_Z (Qfloor q) + 1) by lra.
  assert (H2 : inject_Z (Qfloor q) < inject_Z z + 1) by lra.
  change 1 with (inject_Z 1) in H1, H2.
  rewrite <- inject_Z_plus, <- Zlt_Qlt in H1, H2. lia.
Qed.

(** Rounding half to even is an odd function. *)
Lemma round_half_even_opp (q : Q) : round_half_even (- q) = (- round_half_even q)%Z.
Proof.
  pose proof (Qfloor_le q) as Fl. pose proof (Qlt_floor q) as Fh.
  rewrite inject_Z_plus in Fh. change (inject_Z 1) with 1 in Fh.
  set (f := Qfloor q) in *.
  destruct (Qeq_dec q (inject_Z f)) as [Eint | Nint].
  - assert (E1 : - q == inject_Z (- f)) by (rewrite inject_Z_opp, Eint; reflexivity).
    rewrite (round_half_even_proper _ _ E1), (round_half_even_proper _ _ Eint).
    rewrite !round_half_even_Z. reflexivity.
  - assert (Ei : inject_Z (- f - 1) == - inject_Z f - 1).
    { unfold Qeq, Qminus, Qplus, Qopp, inject_Z. simpl. lia. }
    assert (Hlt : inject_Z f < q).
    { apply Qle_lteq in Fl. destruct Fl as [L | L]; [exact L|].
      exfalso. apply Nint. symmetry. exact L. }
    assert (Ff : Qfloor (- q) = (- f - 1)%Z).
    { apply Qfloor_unique; rewrite Ei; lra. }
    unfold round_half_even. rewrite Ff. fold f.
    assert (Hpar : Z.even (- f - 1) = negb (Z.even f)).
    { replace (- f - 1)%Z with (- (f + 1))%Z by lia.
      rewrite Z.even_opp, Z.even_add. destruct (Z.even f); reflexivity. }
    destruct (Qcompare_spec (q - inject_Z f) (1 # 2)) as [C | C | C];
      destruct (Qcompare_spec (- q - inject_Z (- f - 1)) (1 # 2)) as [D | D | D];
      rewrite Ei in D; try (exfalso; lra); try lia.
    rewrite Hpar. destruct (Z.even f); simpl; lia.
Qed.

Lemma pyround_opp (q : Q) (nd : nat) : pyround (- q) nd == - pyround q nd.
Proof.
  unfold pyround. rewrite !Qred_correct.
  assert (E : - q * inject_Z (pow10 nd) == - (q * inject_Z (pow10 nd))) by ring.
  rewrite (round_half_even_proper _ _ E), round_half_even_opp, inject_Z_opp.
  pose proof (inject_pow10_pos nd). field. lra.
Qed.

(** ** Ratio KPIs *)

(** The body shared by the four percentage KPIs. *)
Lemma percentage_range (whole part : Q) :
  0 < whole -> 0 <= part -> part <= whole ->
  0 <= pyround (if Qltb 0 whole then part / whole * 100 else 0) 2 <= 100.
Proof.
  intros Hw Hp Hle. apply Qltb_true in Hw. rewrite Hw. apply Qltb_true in Hw.
  assert (H0 : 0 <= part / whole) by (apply Qle_shift_div_l; lra).
  assert (H1 : part / whole <= 1) by (apply Qle_shift_div_r; lra).
  split; [apply pyround_nonneg | apply pyround_le_100]; lra.
Qed.

Lemma percentage_mono (whole part part' : Q) :
  part <= part' ->
  pyround (if Qltb 0 whole then part / whole * 100 else 0) 2
  <= pyround (if Qltb 0 whole then part' / whole * 100 else 0) 2.
Proof.
  intro H. destruct (Qltb 0 whole) eqn:E; [|apply Qle_refl].
  apply Qltb_true in E. apply pyround_mono.
  apply Qmult_le_compat_r; [|lra].
  unfold Qdiv. apply Qmult_le_compat_r; [exact H|].
  apply Qlt_le_weak, Qinv_lt_0_compat, E.
Qed.

(** X1.  A part of a positive whole gives a percentage between 0 and 100:
    this holds for the waste rate, the RI/SP coverage, the RI/SP
    utilization and the tag compliance, rounding included. *)
Theorem percentage_kpis_in_range (whole part : Q) :
  0 < whole -> 0 <= part -> part <= whole ->
  0 <= calculate_waste_rate whole part <= 100
  /\ 0 <= calculate_ri_sp_coverage whole part <= 100
  /\ 0 <= calculate_ri_sp_utilization whole part <= 100
  /\ 0 <= calculate_tag_compliance whole part <= 100.
Proof.
  intros Hw Hp Hle.
  pose proof (percentage_range whole part Hw Hp Hle) as H.
  repeat split; apply H.
Qed.

Lemma percentage_kpis_in_range_witness :
  0 <= calculate_ri_sp_utilization 720 650 <= 100
  /\ 0 <= calculate_tag_compliance 3 1 <= 100.
Proof.
  split.
  - apply (percentage_kpis_in_range 720 650); [reflexivity | discriminate | discriminate].
  - apply (percentage_kpis_in_range 3 1); [reflexivity | discriminate | discriminate].
Defined.

(** X2.  The percentage KPIs grow with their numerator and are not
    clamped: more idle cost, covered hours, used hours or tagged resources
    never lowers the result, and a numerator at or above a positive
    denominator gives at least 100. *)
Theorem percentage_kpis_monotone (whole part part' : Q) :
  part <= part' ->
  (calculate_waste_rate whole part <= calculate_waste_rate whole part'
   /\ calculate_ri_sp_coverage whole part <= calculate_ri_sp_coverage whole part'
   /\ calculate_ri_sp_utilization whole part <= calculate_ri_sp_utilization whole part'
   /\ calculate_tag_compliance whole part <= calculate_tag_compliance whole part')
  /\ (0 < whole -> whole <= part ->
      100 <= calculate_waste_rate whole part
      /\ 100 <= calculate_ri_sp_coverage whole part
      /\ 100 <= calculate_ri_sp_utilization whole part
      /\ 100 <= calculate_tag_compliance whole part).
Proof.
  intro H. split.
  - pose proof (percentage_mono whole part part' H) as M. repeat split; exact M.
  - intros Hw Hge.
    assert (G : 100 <= pyround (if Qltb 0 whole then part / whole * 100 else 0) 2).
    { pose proof Hw as Hb. apply Qltb_true in Hb. rewrite Hb.
      apply pyround_ge_100.
      assert (1 <= part / whole) by (apply Qle_shift_div_l; lra). lra. }
    repeat split; exact G.
Qed.

Lemma percentage_kpis_monotone_witness :
  calculate_ri_sp_utilization 100 40 <= calculate_ri_sp_utilization 100 150
  /\ 100 <= calculate_ri_sp_utilization 100 150.
Proof.
  assert (H : 40 <= 150) by discriminate.
  destruct (percentage_kpis_monotone 100 40 150 H) as [[_ [_ [M _]]] _].
  split; [exact M|].
  assert (H' : 150 <= 150) by discriminate.
  destruct (percentage_kpis_monotone 100 150 150 H') as [_ G].
  destruct G as [_ [_ [G _]]]; [reflexivity | discriminate | exact G].
Defined.

(** X3.  The unit cost does not depend on the unit of account: scaling
    cost and units by the same positive factor leaves it unchanged.  It is
    0 when there are no units (or a negative count), and not negative for
    a cost that is not negative. *)
Theorem calculate_unit_cost_scale (total_cost total_units k : Q) :
  (0 < k ->
     calculate_unit_cost (k * total_cost) (k * total_units)
     = calculate_unit_cost total_cost total_units)
  /\ (total_units <= 0 -> calculate_unit_cost total_cost total_units = 0)
  /\ (0 <= total_cost -> 0 <= calculate_unit_cost total_cost total_units).
Proof.
  unfold calculate_unit_cost. split; [|split].
  - intro Hk. destruct (Qltb 0 total_units) eqn:E.
    + apply Qltb_true in E.
      assert (E' : Qltb 0 (k * total_units) = true).
      { apply Qltb_true. apply Qmult_lt_0_compat; assumption. }
      rewrite E'. apply pyround_proper. field. split; lra.
    + apply Qltb_false in E.
      assert (E' : Qltb 0 (k * total_units) = false).
      { apply Qltb_false.
        setoid_replace 0 with (k * 0) by ring.
        apply Qmult_le_l; assumption. }
      rewrite E'. reflexivity.
  - intro H. apply Qltb_false in H. rewrite H. reflexivity.
  - intro H. apply pyround_nonneg.
    destruct (Qltb 0 total_units) eqn:E; [|apply Qle_refl].
    apply Qltb_true in E. apply Qle_shift_div_l; lra.
Qed.

Lemma calculate_unit_cost_scale_witness :
  calculate_unit_cost (83 * 100) (83 * 3) = calculate_unit_cost 100 3
  /\ calculate_unit_cost 100 0 = 0
  /\ 0 <= calculate_unit_cost 100 3.
Proof.
  destruct (calculate_unit_cost_scale 100 3 83) as [H1 [_ H3]].
  destruct (calculate_unit_cost_scale 100 0 83) as [_ [H2 _]].
  split; [apply H1; reflexivity|].
  split; [apply H2; discriminate | apply H3; discriminate].
Defined.

(** X4.  Budget variance keeps the sign of the overrun: spending at or
    above the budget gives a variance and a percentage that are not
    negative, spending at or below it gives values that are not positive,
    and exchanging actual and budgeted cost negates the absolute
    variance. *)
Theorem calculate_budget_variance_sign (actual_cost budgeted_cost : Q) :
  (budgeted_cost <= actual_cost ->
     0 <= variance_inr (calculate_budget_variance actual_cost budgeted_cost)
     /\ 0 <= variance_pct (calculate_budget_variance actual_cost budgeted_cost))
  /\ (actual_cost <= budgeted_cost ->
     variance_inr (calculate_budget_variance actual_cost budgeted_cost) <= 0
     /\ variance_pct (calculate_budget_variance actual_cost budgeted_cost) <= 0)
  /\ variance_inr (calculate_budget_variance budgeted_cost actual_cost)
     == - variance_inr (calculate_budget_variance actual_cost budgeted_cost).
Proof.
  unfold calculate_budget_variance. simpl. split; [|split].
  - intro H. split; apply pyround_nonneg; [lra|].
    destruct (Qltb 0 budgeted_cost) eqn:E; [|apply Qle_refl].
    apply Qltb_true in E.
    assert (0 <= (actual_cost - budgeted_cost) / budgeted_cost)
      by (apply Qle_shift_div_l; lra).
    lra.
  - intro H. split; apply pyround_nonpos; [lra|].
    destruct (Qltb 0 budgeted_cost) eqn:E; [|apply Qle_refl].
    apply Qltb_true in E.
    assert ((actual_cost - budgeted_cost) / budgeted_cost <= 0)
      by (apply Qle_shift_div_r; lra).
    lra.
  - rewrite <- pyround_opp. rewrite (pyround_proper (budgeted_cost - actual_cost)
      (- (actual_cost - budgeted_cost))); [reflexivity | ring].
Qed.

Lemma calculate_budget_variance_sign_witness :
  0 <= variance_pct (calculate_budget_variance 120 100)
  /\ variance_pct (calculate_budget_variance 80 100) <= 0.
Proof.
  split.
  - destruct (calculate_budget_variance_sign 120 100) as [H _].
    apply H. discriminate.
  - destruct (calculate_budget_variance_sign 80 100) as [_ [H _]].
    apply H. discriminate.
Defined.

(** ** Variance *)







Lemma Qsquare_nonneg (q : Q) : 0 <= q * q.
Proof.
  destruct (Qlt_le_dec q 0) as [H | H].
  - setoid_replace (q * q) with ((- q) * (- q)) by ring.
    apply Qmult_le_0_compat; lra.
  - apply Qmult_le_0_compat; exact H.
Qed.








(** ** Seasonality strength *)





(** ** Coefficient of variation *)

Lemma sqrt_round_nonneg (x : Q) (nd : nat) : 0 <= x -> 0 <= sqrt_round x nd.
Proof.
  intro Hx. destruct (sqrt_round_spec x nd Hx) as [r [E [Hr _]]].
  rewrite E. apply Qle_shift_div_l; [apply inject_pow10_pos|].
  rewrite Qmult_0_l. change 0 with (inject_Z 0). rewrite <- Zle_Qle. exact Hr.
Qed.









(** ** Where the percentage errors are defined *)

Lemma all_zero_or_some_nonzero (xs : list Q) : all_zero xs \/ some_nonzero xs.
Proof.
  induction xs as [|x xs [IH | IH]].
  - left. constructor.
  - destruct (Qeq_dec x 0) as [E | N].
    + left. constructor; assumption.
    + right. apply Exists_cons_hd. exact N.
  - right. apply Exists_cons_tl. exact IH.
Qed.

Lemma all_zero_not_some_nonzero (xs : list Q) : all_zero xs -> ~ some_nonzero xs.
Proof.
  intros Hz Hn. induction Hn as [x xs Hx | x xs _ IH].
  - inversion Hz; subst. contradiction.
  - inversion Hz; subst. apply IH. assumption.
Qed.


Lemma np_abs_nonneg (xs : list Q) : all_nonneg (np_abs xs).
Proof.
  induction xs as [|x xs IH]; simpl; constructor; [apply Qabs_nonneg | exact IH].
Qed.

Lemma np_sum_nonneg (xs : list Q) : all_nonneg xs -> 0 <= np_sum xs.
Proof.
  induction 1 as [|x xs Hx _ IH]; simpl; [apply Qle_refl | lra].
Qed.

Lemma np_mean_nonneg (xs : list Q) :
  xs <> [] -> all_nonneg xs -> exists q, np_mean xs = Fin q /\ 0 <= q.
Proof.
  intros Hne Hpos. destruct xs as [|x xs]; [contradiction|].
  eexists. split; [reflexivity|].
  apply Qle_shift_div_l; [apply Qlen_pos; discriminate|].
  rewrite Qmult_0_l. apply np_sum_nonneg. exact Hpos.
Qed.








Section EqualLengths.

Variables a p : list Q.
Hypothesis Hlen : length a = length p.

Let a_m := select a (nonzero_mask a).
Let p_m := select p (nonzero_mask a).

Lemma masked_lengths : length a_m = length p_m.
Proof.
  unfold a_m, p_m.
  rewrite !select_length by (rewrite nonzero_mask_length; congruence).
  reflexivity.
Qed.

Lemma mape_value :
  calculate_mape (evaluator a p)
  = Ok (np_round (fmul (np_mean (np_abs (zip_with Qdiv (zip_with Qminus a_m p_m) a_m)))
                       hundred) 2).
Proof.
  unfold calculate_mape. simpl.
  rewrite !bool_index_same by (rewrite nonzero_mask_length; congruence). simpl.
  fold a_m p_m.
  rewrite (broadcast_same _ _ _ masked_lengths). simpl.
  rewrite broadcast_same by (apply zip_with_length, masked_lengths).
  reflexivity.
Qed.

Lemma mdape_value :
  calculate_mdape (evaluator a p)
  = Ok (np_round
          (np_median (map (fun x => x * 100)
                          (np_abs (zip_with Qdiv (zip_with Qminus a_m p_m) a_m)))) 2).
Proof.
  unfold calculate_mdape. simpl.
  rewrite !bool_index_same by (rewrite nonzero_mask_length; congruence). simpl.
  fold a_m p_m.
  rewrite (broadcast_same _ _ _ masked_lengths). simpl.
  rewrite broadcast_same by (apply zip_with_length, masked_lengths).
  reflexivity.
Qed.

Lemma wape_value :
  calculate_wape (evaluator a p)
  = Ok (np_round (fmul (fdiv (Fin (np_sum (np_abs (zip_with Qminus a p))))
                             (Fin (np_sum (np_abs a)))) hundred) 2).
Proof.
  unfold calculate_wape. simpl.
  rewrite (broadcast_same _ _ _ Hlen). reflexivity.
Qed.



End EqualLengths.



(** ** The symmetric percentage error *)

Lemma smape_value (a p : list Q) :
  length a = length p ->
  calculate_smape (evaluator a p)
  = Ok (np_round
          (fmul (np_mean
                   (zip_with Qdiv
                      (select (smape_numerator a p) (nonzero_mask (smape_denominator a p)))
                      (select (smape_denominator a p) (nonzero_mask (smape_denominator a p)))))
                hundred) 2).
Proof.
  intro Hlen. unfold calculate_smape. simpl.
  rewrite (broadcast_same _ _ _ Hlen). simpl.
  rewrite broadcast_same by (rewrite !np_abs_length; exact Hlen). simpl.
  fold (smape_numerator a p). fold (smape_denominator a p).
  assert (Hn : length (smape_numerator a p) = length a).
  { unfold smape_numerator. rewrite np_abs_length. apply zip_with_length, Hlen. }
  assert (Hd : length (smape_denominator a p) = length a).
  { unfold smape_denominator. rewrite length_map, zip_with_length
      by (rewrite !np_abs_length; exact Hlen).
    apply np_abs_length. }
  rewrite !bool_index_same by (rewrite nonzero_mask_length; congruence). simpl.
  rewrite broadcast_same; [reflexivity|].
  rewrite !select_length by (rewrite nonzero_mask_length; congruence).
  reflexivity.
Qed.








(** ** Absolute errors and bias *)

Lemma targets_ok (a p : list Q) :
  a <> [] -> length a = length p -> sklearn.check_reg_targets a p = Ok tt.
Proof.
  intros Hne Hlen. unfold sklearn.check_reg_targets.
  rewrite Hlen, Nat.eqb_refl. simpl.
  destruct a; [contradiction | reflexivity].
Qed.

Lemma zip_nonempty {A B C : Type} (f : A -> B -> C) (xs : list A) (ys : list B) :
  xs <> [] -> length xs = length ys -> zip_with f xs ys <> [].
Proof.
  intros Hne Hlen. apply nonempty_length. rewrite zip_with_length by exact Hlen.
  destruct xs; [contradiction | simpl; lia].
Qed.

Lemma np_mean_finite (xs : list Q) : xs <> [] -> exists q, np_mean xs = Fin q.
Proof.
  intro Hne. destruct xs; [contradiction|]. eexists. reflexivity.
Qed.

Lemma squares_nonneg (xs : list Q) : all_nonneg (map (fun d => d * d) xs).
Proof.
  induction xs; simpl; constructor; [apply Qsquare_nonneg | assumption].
Qed.

Lemma mae_value (a p : list Q) :
  a <> [] -> length a = length p ->
  calculate_mae (evaluator a p)
  = Ok (np_round (np_mean (np_abs (zip_with Qminus p a))) 2).
Proof.
  intros Hne Hlen. unfold calculate_mae, sklearn.mean_absolute_error. simpl.
  rewrite (targets_ok a p Hne Hlen). reflexivity.
Qed.

Lemma rmse_value (a p : list Q) :
  a <> [] -> length a = length p ->
  calculate_rmse (evaluator a p)
  = Ok (np_round_sqrt (np_mean (map (fun d => d * d) (zip_with Qminus a p))) 2).
Proof.
  intros Hne Hlen. unfold calculate_rmse, sklearn.mean_squared_error. simpl.
  rewrite (targets_ok a p Hne Hlen). reflexivity.
Qed.

Lemma absolute_errors_values (a p : list Q) :
  a <> [] -> length a = length p ->
  (exists q, calculate_mae (evaluator a p) = Ok (Fin q) /\ 0 <= q)
  /\ (exists q, calculate_rmse (evaluator a p) = Ok (Fin q) /\ 0 <= q)
  /\ (exists q, calculate_bias (evaluator a p) = Ok (Fin q))
  /\ (exists q, calculate_bias_percentage (evaluator a p) = Ok (Fin q)).
Proof.
  intros Hne Hlen.
  assert (Hne' : p <> []) by (destruct a, p; simpl in *; congruence).
  split; [|split; [|split]].
  - rewrite (mae_value a p Hne Hlen).
    destruct (np_mean_nonneg (np_abs (zip_with Qminus p a))) as [m [E Hm]].
    + intro E. apply map_eq_nil in E.
      exact (zip_nonempty Qminus p a Hne' (eq_sym Hlen) E).
    + apply np_abs_nonneg.
    + rewrite E. simpl. eexists. split; [reflexivity | apply pyround_nonneg, Hm].
  - rewrite (rmse_value a p Hne Hlen).
    destruct (np_mean_nonneg (map (fun d => d * d) (zip_with Qminus a p)))
      as [m [E Hm]].
    + intro E. apply map_eq_nil in E. exact (zip_nonempty Qminus a p Hne Hlen E).
    + apply squares_nonneg.
    + rewrite E. simpl.
      assert (Hb : Qltb m 0 = false) by (apply Qltb_false; exact Hm).
      rewrite Hb. eexists. split; [reflexivity | apply sqrt_round_nonneg, Hm].
  - unfold calculate_bias. simpl.
    rewrite broadcast_same by congruence. simpl.
    destruct (np_mean_finite (zip_with Qminus p a)) as [b E].
    + apply zip_nonempty; congruence.
    + rewrite E. simpl. eexists. reflexivity.
  - unfold calculate_bias_percentage. simpl.
    rewrite broadcast_same by congruence. simpl.
    destruct (np_mean_finite (zip_with Qminus p a)) as [b E].
    + apply zip_nonempty; congruence.
    + destruct (np_mean_finite a Hne) as [m Em].
      rewrite E, Em. simpl.
      destruct (Qeq_bool m 0); simpl; eexists; reflexivity.
Qed.



Lemma np_sum_zip_minus_swap (a p : list Q) :
  np_sum (zip_with Qminus p a) == - np_sum (zip_with Qminus a p).
Proof.
  revert p. induction a as [|x a IH]; intros [|y p]; simpl; try reflexivity.
  unfold zip_with in IH. rewrite IH. ring.
Qed.

Lemma np_mean_value (xs : list Q) :
  xs <> [] -> np_mean xs = Fin (np_sum xs / Qlen xs).
Proof. intro Hne. destruct xs; [contradiction | reflexivity]. Qed.

Lemma bias_value (a p : list Q) :
  a <> [] -> length a = length p ->
  calculate_bias (evaluator a p)
  = Ok (Fin (pyround (np_sum (zip_with Qminus p a) / Qlen a) 2)).
Proof.
  intros Hne Hlen.
  assert (Hne' : p <> []) by (destruct a, p; simpl in *; congruence).
  unfold calculate_bias. simpl.
  rewrite broadcast_same by congruence. simpl.
  rewrite np_mean_value by (apply zip_nonempty; congruence). simpl.
  unfold Qlen. rewrite zip_with_length by congruence. rewrite Hlen. reflexivity.
Qed.

(** X13.  Bias is signed and antisymmetric: on non-empty sequences of
    equal length, exchanging [actual] and [predicted] negates it. *)
Theorem calculate_bias_antisymmetric (a p : list Q) :
  a <> [] -> length a = length p ->
  exists q q',
    calculate_bias (evaluator a p) = Ok (Fin q)
    /\ calculate_bias (evaluator p a) = Ok (Fin q')
    /\ q' == - q.
Proof.
  intros Hne Hlen.
  assert (Hne' : p <> []) by (destruct a, p; simpl in *; congruence).
  rewrite (bias_value a p Hne Hlen), (bias_value p a Hne' (eq_sym Hlen)).
  do 2 eexists. split; [reflexivity|]. split; [reflexivity|].
  rewrite <- pyround_opp.
  rewrite (pyround_proper (np_sum (zip_with Qminus a p) / Qlen p)
             (- (np_sum (zip_with Qminus p a) / Qlen a))); [reflexivity|].
  assert (L : Qlen p = Qlen a) by (unfold Qlen; rewrite Hlen; reflexivity).
  rewrite L, (np_sum_zip_minus_swap p a).
  pose proof (Qlen_pos a Hne). field. lra.
Qed.

Lemma calculate_bias_antisymmetric_witness :
  exists q q',
    calculate_bias (evaluator [100; 200] [110; 230]) = Ok (Fin q)
    /\ calculate_bias (evaluator [110; 230] [100; 200]) = Ok (Fin q')
    /\ q' == - q.
Proof.
  apply calculate_bias_antisymmetric; [discriminate | reflexivity].
Defined.

(** ** Coverage and the coefficient of determination *)

Lemma covered_entries_le_length (a lo up : list Q) :
  (covered_entries a lo up <= length a)%nat.
Proof.
  revert lo up. induction a as [|x a IH]; intros [|l lo] [|u up]; simpl; try lia.
  specialize (IH lo up). destruct (inside x l u); lia.
Qed.

(** X14.  For a non-empty [actual] and bounds of its length, PICP is a
    percentage between 0 and 100; it is 100 when every entry is covered and
    0 when none is. *)
Theorem calculate_picp_range (a p lo up : list Q) :
  a <> [] -> length lo = length a -> length up = length a ->
  exists q,
    calculate_picp (evaluator_with_interval a p lo up) = Ok (Some (Fin q))
    /\ 0 <= q <= 100
    /\ (covered_entries a lo up = length a -> q = 100)
    /\ (covered_entries a lo up = O -> q = 0).
Proof.
  intros Hne Hl Hu. rewrite (picp_value_nonempty a p lo up Hne Hl Hu).
  eexists. split; [reflexivity|].
  pose proof (Qlen_pos a Hne) as Hpos.
  pose proof (covered_entries_le_length a lo up) as Hle.
  assert (H0 : 0 <= covered a lo up).
  { unfold covered. change 0 with (inject_Z 0). rewrite <- Zle_Qle. lia. }
  assert (H1 : covered a lo up <= Qlen a).
  { unfold covered, Qlen. rewrite <- Zle_Qle. lia. }
  split; [split|split].
  - apply pyround_nonneg. apply Qle_shift_div_l; lra.
  - apply pyround_le_100. apply Qle_shift_div_r; lra.
  - intro E. rewrite (pyround_proper _ 100); [reflexivity|].
    unfold covered. rewrite E. fold (Qlen a). field. lra.
  - intro E. rewrite (pyround_proper _ 0); [reflexivity|].
    unfold covered. rewrite E. simpl. field. lra.
Qed.

Lemma calculate_picp_range_witness :
  exists q,
    calculate_picp (evaluator_with_interval [1; 5; 9] [1; 5; 9] [0; 0; 0] [9; 9; 9])
    = Ok (Some (Fin q))
    /\ 0 <= q <= 100
    /\ (covered_entries [1; 5; 9] [0; 0; 0] [9; 9; 9] = length [1; 5; 9] -> q = 100)
    /\ (covered_entries [1; 5; 9] [0; 0; 0] [9; 9; 9] = O -> q = 0).
Proof.
  apply calculate_picp_range; [discriminate | reflexivity | reflexivity].
Defined.



(** ** MAE against RMSE *)









(** ** The scaled error *)



(** ** The whole dictionary *)

Lemma r2_returns (a p : list Q) :
  a <> [] -> length a = length p -> exists x, calculate_r2 (evaluator a p) = Ok x.
Proof.
  intros Hne Hlen. unfold calculate_r2, sklearn.r2_score. simpl.
  rewrite (targets_ok a p Hne Hlen). simpl.
  destruct (length p <? 2)%nat; [eexists; reflexivity|].
  destruct (Qeq_bool _ 0); [destruct (Qeq_bool _ 0)|]; eexists; reflexivity.
Qed.

Lemma metrics_of_fields (self : AdvancedMetricsEvaluator) :
  let e := evaluator (actual self) (predicted self) in
  calculate_mape self = calculate_mape e
  /\ calculate_smape self = calculate_smape e
  /\ calculate_wape self = calculate_wape e
  /\ calculate_mae self = calculate_mae e
  /\ calculate_rmse self = calculate_rmse e
  /\ calculate_mdape self = calculate_mdape e
  /\ calculate_r2 self = calculate_r2 e
  /\ calculate_bias self = calculate_bias e
  /\ calculate_bias_percentage self = calculate_bias_percentage e.
Proof. repeat split; reflexivity. Qed.

Lemma picp_returns (self : AdvancedMetricsEvaluator) :
  (forall lo, forecast_lower self = Some lo -> length lo = length (actual self)) ->
  (forall up, forecast_upper self = Some up -> length up = length (actual self)) ->
  exists o, calculate_picp self = Ok o.
Proof.
  intros Hlo Hup. unfold calculate_picp.
  destruct (forecast_lower self) as [lo|]; [|eexists; reflexivity].
  destruct (forecast_upper self) as [up|]; [|eexists; reflexivity].
  specialize (Hlo lo eq_refl). specialize (Hup up eq_refl).
  rewrite (broadcast_same _ (actual self) lo) by congruence. simpl.
  rewrite (broadcast_same _ (actual self) up) by congruence. simpl.
  rewrite broadcast_same by (rewrite !zip_with_length; congruence). simpl.
  eexists. reflexivity.
Qed.

Lemma get_all_returns (self : AdvancedMetricsEvaluator) :
  actual self <> [] ->
  length (actual self) = length (predicted self) ->
  (forall lo, forecast_lower self = Some lo -> length lo = length (actual self)) ->
  (forall up, forecast_upper self = Some up -> length up = length (actual self)) ->
  exists d,
    get_all_forecast_metrics self = Ok d
    /\ length d = 10%nat
    /\ keys d = forecast_metric_keys.
Proof.
  intros Hne Hlen Hlo Hup.
  destruct (metrics_of_fields self) as (E1 & E2 & E3 & E4 & E5 & E6 & E7 & E8 & E9).
  set (a := actual self) in *. set (p := predicted self) in *.
  destruct (absolute_errors_values a p Hne Hlen)
    as [[mae [Hmae _]] [[rmse [Hrmse _]] [[bias Hbias] [bpct Hbpct]]]].
  destruct (r2_returns a p Hne Hlen) as [r2 Hr2].
  destruct (picp_returns self Hlo Hup) as [o Ho].
  unfold get_all_forecast_metrics.
  rewrite E1, E2, E3, E4, E5, E6, E7, E8, E9.
  rewrite (mape_value a p Hlen), (smape_value a p Hlen), (wape_value a p Hlen),
    (mdape_value a p Hlen), Hmae, Hrmse, Hr2, Hbias, Hbpct, Ho.
  simpl. eexists. split; [reflexivity|]. split; reflexivity.
Qed.

(** X18.  [get_all_forecast_metrics] returns a dictionary of ten entries
    for every evaluator whose sequences are non-empty and of equal length
    and whose interval bounds, when given, have that length too. *)
Theorem get_all_forecast_metrics_returns (self : AdvancedMetricsEvaluator) :
  actual self <> [] ->
  length (actual self) = length (predicted self) ->
  (forall lo, forecast_lower self = Some lo -> length lo = length (actual self)) ->
  (forall up, forecast_upper self = Some up -> length up = length (actual self)) ->
  exists d,
    get_all_forecast_metrics self = Ok d
    /\ length d = 10%nat
    /\ keys d = forecast_metric_keys.
Proof. exact (get_all_returns self). Qed.

Lemma get_all_forecast_metrics_returns_witness :
  exists d,
    get_all_forecast_metrics (evaluator_with_interval [1; 0] [2; 0] [0; 0] [3; 3]) = Ok d
    /\ length d = 10%nat
    /\ keys d = forecast_metric_keys.
Proof.
  apply get_all_forecast_metrics_returns; simpl;
    try discriminate; try reflexivity;
    intros ? E; injection E as <-; reflexivity.
Defined.



(** ** The panels of the comparison chart *)

Lemma get_all_shape (self : AdvancedMetricsEvaluator) (d : dict) :
  get_all_forecast_metrics self = Ok d ->
  exists mape smape wape mae rmse mdape r2 bias bias_pct picp,
    calculate_mape self = Ok mape
    /\ calculate_picp self = Ok picp
    /\ d = [ ("MAPE (%)"%string, PyFloat mape);
             ("sMAPE (%)"%string, PyFloat smape);
             ("WAPE (%)"%string, PyFloat wape);
             ("MAE (INR)"%string, PyFloat mae);
             ("RMSE (INR)"%string, PyFloat rmse);
             ("MdAPE (%)"%string, PyFloat mdape);
             ("R¬≤ Score"%string, PyFloat r2);
             ("Bias (INR)"%string, PyFloat bias);
             ("Bias (%)"%string, PyFloat bias_pct);
             ("PICP (%)"%string, of_option picp) ].
Proof.
  unfold get_all_forecast_metrics. intro H.
  do 10 step_metric H.
  injection H as <-.
  do 10 eexists. split; [reflexivity|]. split; reflexivity.
Qed.

(** X20.  The comparison chart sorts the dictionary of metrics into three
    panels by the unit in the key, leaving out entries that are [None]:
    MAPE, sMAPE, WAPE, MdAPE and Bias % (and PICP when an interval was
    given) go to the percentage panel, MAE, RMSE and Bias to the panel of
    absolute errors, and R2 alone to the third; no entry is drawn twice. *)
Theorem plot_metrics_comparison_panels (self : AdvancedMetricsEvaluator) (d : dict) :
  get_all_forecast_metrics self = Ok d ->
  exists picp,
    calculate_picp self = Ok picp
    /\ keys (pct_metrics d)
       = app [ "MAPE (%)"; "sMAPE (%)"; "WAPE (%)"; "MdAPE (%)"; "Bias (%)" ]%string
             (match picp with Some _ => [ "PICP (%)"%string ] | None => [] end)
    /\ keys (abs_metrics d) = [ "MAE (INR)"; "RMSE (INR)"; "Bias (INR)" ]%string
    /\ keys (other_metrics d) = [ "R¬≤ Score" ]%string
    /\ (length (pct_metrics d) + length (abs_metrics d) + length (other_metrics d)
        = length (filter (fun kv => is_not_none (snd kv)) d))%nat.
Proof.
  intro H.
  destruct (get_all_shape self d H)
    as (mape & smape & wape & mae & rmse & mdape & r2 & bias & bias_pct & picp
        & _ & Hp & ->).
  exists picp. split; [exact Hp|].
  destruct picp; repeat split; reflexivity.
Qed.

Lemma plot_metrics_comparison_panels_witness :
  exists d,
    get_all_forecast_metrics (evaluator [100; 200] [110; 180]) = Ok d
    /\ keys (pct_metrics d)
       = [ "MAPE (%)"; "sMAPE (%)"; "WAPE (%)"; "MdAPE (%)"; "Bias (%)" ]%string.
Proof.
  eexists. split; [reflexivity|].
  destruct (plot_metrics_comparison_panels (evaluator [100; 200] [110; 180]) _ eq_refl)
    as [picp [Hp [H _]]].
  compute in Hp. injection Hp as <-. exact H.
Defined.

(** ** The report: evaluator and summary table *)

Lemma split_idx_value (n : nat) :
  Z.to_nat (Qfloor (inject_Z (Z.of_nat n) * (8 # 10))) = Z.to_nat (Z.of_nat n * 8 / 10).
Proof.
  unfold Qfloor, Qmult, inject_Z. simpl Qnum. simpl Qden. reflexivity.
Qed.

Lemma split_idx_bounds (n : nat) :
  let split_idx := Z.to_nat (Qfloor (inject_Z (Z.of_nat n) * (8 # 10))) in
  ((2 <= n)%nat -> (1 <= split_idx < n)%nat)
  /\ ((n <= 1)%nat -> split_idx = O).
Proof.
  cbv zeta. rewrite split_idx_value.
  pose proof (Z.div_mod (Z.of_nat n * 8) 10 ltac:(lia)) as Hdm.
  pose proof (Z.mod_pos_bound (Z.of_nat n * 8) 10 ltac:(lia)) as Hmod.
  split; intro H; lia.
Qed.

Lemma correlate_valid_length (a w : list Q) :
  length (correlate_valid a w) = (length a - length w + 1)%nat.
Proof. unfold correlate_valid. rewrite length_map, length_seq. reflexivity. Qed.

Lemma convolve_week (train : list Q) :
  (train <> [] ->
     exists ma, np_convolve_valid train week_kernel = Ok ma /\ ma <> [])
  /\ (train = [] -> np_convolve_valid train week_kernel = Raise ValueError).
Proof.
  split.
  - intro Hne. unfold np_convolve_valid.
    destruct (length train <? length week_kernel)%nat.
    + destruct train as [|x xs]; [contradiction|].
      eexists. split; [reflexivity|].
      apply nonempty_length. rewrite correlate_valid_length. lia.
    + destruct train as [|x xs]; [contradiction|].
      eexists. split; [reflexivity|].
      apply nonempty_length. rewrite correlate_valid_length. lia.
  - intros ->. reflexivity.
Qed.

Lemma last_k_length {A : Type} (k : nat) (xs : list A) :
  (1 <= k)%nat -> length (last_k k xs) = Nat.min k (length xs).
Proof.
  intro Hk. unfold last_k.
  destruct (k =? 0)%nat eqn:E; [apply Nat.eqb_eq in E; lia|].
  rewrite length_skipn. lia.
Qed.

Lemma report_evaluator_ok (costs : list Q) :
  (2 <= length costs)%nat ->
  exists e,
    report_evaluator costs = Ok e
    /\ actual e <> []
    /\ length (actual e) = length (predicted e)
    /\ forecast_lower e = None
    /\ forecast_upper e = None.
Proof.
  intro Hn. unfold report_evaluator. cbv zeta.
  destruct (split_idx_bounds (length costs)) as [Hs _]. cbv zeta in Hs.
  specialize (Hs Hn). unfold Qlen.
  set (split_idx := Z.to_nat (Qfloor (inject_Z (Z.of_nat (length costs)) * (8 # 10)))) in *.
  assert (Ltrain : length (firstn split_idx costs) = split_idx)
    by (rewrite length_firstn; lia).
  assert (Ltest : length (skipn split_idx costs) = (length costs - split_idx)%nat)
    by apply length_skipn.
  destruct (convolve_week (firstn split_idx costs)) as [Hc _].
  destruct Hc as [ma [Ema Hma]].
  { apply nonempty_length. lia. }
  rewrite Ema. cbn [bind].
  assert (Lma : (1 <= length ma)%nat) by (destruct ma; [contradiction | simpl; lia]).
  eexists. split; [reflexivity|].
  cbn [actual predicted forecast_lower forecast_upper evaluator].
  rewrite (last_k_length (length (skipn split_idx costs)) ma) by lia.
  split; [|split; [|split; reflexivity]].
  - apply nonempty_length. rewrite length_firstn. lia.
  - rewrite !length_firstn, (last_k_length (length (skipn split_idx costs)) ma) by lia.
    lia.
Qed.

(** X21.  The report builds its evaluator from the cost column alone.
    With at least two rows the test sequence and the moving-average
    prediction are cut to one common, positive length, so all ten forecast
    metrics return; with fewer than two rows there are no training rows
    and the convolution raises [ValueError]. *)
Theorem report_evaluator_inputs (costs : list Q) :
  ((2 <= length costs)%nat ->
     exists e d,
       report_evaluator costs = Ok e
       /\ actual e <> []
       /\ length (actual e) = length (predicted e)
       /\ get_all_forecast_metrics e = Ok d
       /\ length d = 10%nat)
  /\ ((length costs <= 1)%nat -> report_evaluator costs = Raise ValueError).
Proof.
  split.
  - intro Hn.
    destruct (report_evaluator_ok costs Hn) as [e [He [Hne [Hlen [Hlo Hup]]]]].
    destruct (get_all_returns e Hne Hlen) as [d [Hd [Hl _]]].
    + intros lo E. congruence.
    + intros up E. congruence.
    + exists e, d. repeat split; assumption.
  - intro Hn. unfold report_evaluator. cbv zeta.
    destruct (split_idx_bounds (length costs)) as [_ Hs]. cbv zeta in Hs.
    specialize (Hs Hn). unfold Qlen. rewrite Hs. reflexivity.
Qed.

Lemma report_evaluator_inputs_witness :
  (exists e d,
     report_evaluator [10; 12; 11; 13; 12; 14; 13; 15; 14; 16] = Ok e
     /\ actual e <> []
     /\ length (actual e) = length (predicted e)
     /\ get_all_forecast_metrics e = Ok d
     /\ length d = 10%nat)
  /\ report_evaluator [10] = Raise ValueError.
Proof.
  split.
  - destruct (report_evaluator_inputs [10; 12; 11; 13; 12; 14; 13; 15; 14; 16]) as [H _].
    apply H. simpl. lia.
  - destruct (report_evaluator_inputs [10]) as [_ H].
    apply H. simpl. lia.
Defined.

(** X22.  The summary table has nineteen rows exactly when the dictionary
    of forecast metrics has ten entries: the targets and statuses of the
    forecast rows are written out for ten metrics.  For the dictionary of
    [get_all_forecast_metrics] the table is built, and all ten forecast
    rows carry one status, that of MAPE against its 15 % target (a NaN
    gives Review).  A dictionary of any other size makes the constructor
    raise [ValueError]. *)
Theorem metrics_summary_rows (waste_rate unit_cost : Q) (variance : budget_variance)
    (cagr : Q) (cv avg_cpu : npfloat) :
  (forall self fm,
     get_all_forecast_metrics self = Ok fm ->
     exists mape df,
       calculate_mape self = Ok mape
       /\ metrics_summary fm waste_rate unit_cost variance cagr cv avg_cpu = Ok df
       /\ length (metric_category df) = 19%nat
       /\ length (metric_name df) = 19%nat
       /\ length (metric_value df) = 19%nat
       /\ length (metric_target df) = 19%nat
       /\ length (metric_status df) = 19%nat
       /\ firstn 10 (metric_status df)
          = repeat (pass_or_review (match mape with
                                    | Fin q => Qle_bool q 15
                                    | NInf => true
                                    | _ => false
                                    end)) 10)
  /\ (forall fm,
        length fm <> 10%nat ->
        get fm "MAPE (%)" <> Some PyNone ->
        metrics_summary fm waste_rate unit_cost variance cagr cv avg_cpu
        = Raise ValueError).
Proof.
  split.
  - intros self fm H.
    destruct (get_all_shape self fm H)
      as (mape & smape & wape & mae & rmse & mdape & r2 & bias & bias_pct & picp
          & Hm & _ & ->).
    exists mape. unfold metrics_summary. simpl get.
    destruct mape as [q | | |]; simpl; eexists; (split; [exact Hm|]);
      repeat split; reflexivity.
  - intros fm Hlen Hnone. unfold metrics_summary.
    assert (Hok : exists b,
               le_number (match get fm "MAPE (%)" with
                          | Some v => v
                          | None => number 100
                          end) 15 = Ok b).
    { destruct (get fm "MAPE (%)") as [[[q | | |] |] |]; simpl;
        try (eexists; reflexivity).
      exfalso. apply Hnone. reflexivity. }
    destruct Hok as [b Eb]. rewrite Eb. cbn [bind].
    unfold make_frame.
    match goal with
    | |- (if ?c then _ else _) = _ => destruct c eqn:E
    end; [|reflexivity].
    exfalso. rewrite !andb_true_iff in E. destruct E as [[[_ _] Et] _].
    apply Nat.eqb_eq in Et.
    rewrite !length_app, !repeat_length in Et. simpl in Et. lia.
Qed.

Lemma metrics_summary_rows_witness :
  metrics_summary [ ("MAPE (%)"%string, PyFloat (Fin 12)) ] 10 1
    (calculate_budget_variance 110 100) 3 (Fin 5) (Fin 60)
  = Raise ValueError.
Proof.
  destruct (metrics_summary_rows 10 1 (calculate_budget_variance 110 100) 3
              (Fin 5) (Fin 60)) as [_ H].
  apply H; [simpl; lia | discriminate].
Defined.

Lemma Forall_firstn_of {A : Type} (P : A -> Prop) (n : nat) (xs : list A) :
  Forall P xs -> Forall P (firstn n xs).
Proof.
  intro H. revert n. induction H; intros [|n]; simpl; constructor; auto.
Qed.

Lemma Forall_skipn_of {A : Type} (P : A -> Prop) (n : nat) (xs : list A) :
  Forall P xs -> Forall P (skipn n xs).
Proof.
  intro H. revert n. induction H; intros [|n]; simpl; try constructor; auto.
Qed.

Lemma Forall_last_k {A : Type} (P : A -> Prop) (k : nat) (xs : list A) :
  Forall P xs -> Forall P (last_k k xs).
Proof.
  intro H. unfold last_k. destruct (k =? 0)%nat; [exact H|].
  apply Forall_skipn_of. exact H.
Qed.

Lemma dot_uniform (c : Q) (n : nat) (w : list Q) :
  dot w (repeat c n) == c * np_sum (firstn n w).
Proof.
  revert w. induction n as [|n IH]; intros [|x w]; unfold dot in *; simpl;
    try ring.
  specialize (IH w). unfold zip_with in IH. rewrite IH. ring.
Qed.

Lemma dot_uniform_l (c : Q) (n : nat) (w : list Q) :
  dot (repeat c n) w == c * np_sum (firstn n w).
Proof.
  revert w. induction n as [|n IH]; intros [|x w]; unfold dot in *; simpl;
    try ring.
  specialize (IH w). unfold zip_with in IH. rewrite IH. ring.
Qed.

Lemma np_sum_app (xs ys : list Q) : np_sum (xs ++ ys) == np_sum xs + np_sum ys.
Proof.
  induction xs as [|x xs IH]; simpl; [ring | rewrite IH; ring].
Qed.

Lemma np_sum_rev (xs : list Q) : np_sum (rev xs) == np_sum xs.
Proof.
  induction xs as [|x xs IH]; simpl; [reflexivity|].
  rewrite np_sum_app, IH. simpl. ring.
Qed.

Lemma correlate_valid_Forall (P : Q -> Prop) (a w : list Q) :
  (forall k, (k < length a - length w + 1)%nat ->
             P (dot (firstn (length w) (skipn k a)) w)) ->
  Forall P (correlate_valid a w).
Proof.
  intro H. unfold correlate_valid. apply Forall_map, Forall_forall.
  intros k Hk. apply in_seq in Hk. apply H. lia.
Qed.

Lemma week_kernel_rev : rev week_kernel = repeat (1 # 7) 7.
Proof. reflexivity. Qed.

Lemma skipn_of_repeat {A : Type} (c : A) (k n : nat) :
  skipn k (repeat c n) = repeat c (n - k).
Proof.
  revert n. induction k as [|k IH]; intros [|n]; simpl; auto.
Qed.

Lemma firstn_of_repeat {A : Type} (c : A) (m n : nat) :
  firstn m (repeat c n) = repeat c (Nat.min m n).
Proof.
  revert n. induction m as [|m IH]; intros [|n]; simpl; auto.
  rewrite IH. reflexivity.
Qed.

Lemma convolve_nonempty (a v : list Q) :
  a <> [] -> v <> [] ->
  np_convolve_valid a v
  = Ok (if (length a <? length v)%nat
        then correlate_valid v (rev a)
        else correlate_valid a (rev v)).
Proof.
  intros Ha Hv. unfold np_convolve_valid.
  destruct (length a <? length v)%nat; destruct a, v;
    try contradiction; reflexivity.
Qed.

Lemma week_kernel_nonempty : week_kernel <> [].
Proof. discriminate. Qed.

(** With seven training rows or more, a moving average. *)
Lemma convolve_week_long (train : list Q) :
  (7 <= length train)%nat ->
  exists ma,
    np_convolve_valid train week_kernel = Ok ma
    /\ Forall (fun y => exists k, (k + 7 <= length train)%nat
                                  /\ y == np_sum (firstn 7 (skipn k train)) / 7) ma.
Proof.
  intro H7.
  assert (Hne : train <> []) by (apply nonempty_length; lia).
  rewrite (convolve_nonempty train week_kernel Hne week_kernel_nonempty).
  assert (E : (length train <? length week_kernel)%nat = false)
    by (apply Nat.ltb_ge; exact H7).
  rewrite E. eexists. split; [reflexivity|].
  apply correlate_valid_Forall. intros k Hk.
  rewrite week_kernel_rev, repeat_length in *.
  exists k. split; [lia|].
  rewrite dot_uniform, firstn_firstn. simpl Nat.min. field.
Qed.

(** With fewer than seven training rows the arrays change places: every
    value is the sum of all training rows divided by seven. *)
Lemma convolve_week_short (train : list Q) :
  train <> [] -> (length train < 7)%nat ->
  exists ma,
    np_convolve_valid train week_kernel = Ok ma
    /\ Forall (fun y => y == np_sum train / 7) ma.
Proof.
  intros Hne H7.
  rewrite (convolve_nonempty train week_kernel Hne week_kernel_nonempty).
  assert (E : (length train <? length week_kernel)%nat = true)
    by (apply Nat.ltb_lt; exact H7).
  rewrite E. eexists. split; [reflexivity|].
  apply correlate_valid_Forall. intros k Hk.
  rewrite length_rev in *. change (length week_kernel) with 7%nat in Hk.
  assert (Ew : firstn (length train) (skipn k week_kernel)
               = repeat (1 # 7) (length train)).
  { unfold week_kernel. rewrite skipn_of_repeat, firstn_of_repeat.
    f_equal. lia. }
  rewrite Ew, dot_uniform_l.
  rewrite firstn_all2 by (rewrite length_rev; lia).
  rewrite np_sum_rev. field.
Qed.

(** X23.  The stand-in prediction of the report is a seven-row moving
    average only when there are at least nine rows of costs: every
    predicted value is then the mean of seven consecutive training rows.
    With two to eight rows fewer than seven are left for training, and
    every predicted value is the sum of all training rows divided by
    seven. *)
Theorem report_evaluator_prediction (costs : list Q) :
  ((9 <= length costs)%nat ->
     exists e,
       report_evaluator costs = Ok e
       /\ Forall (fun y => exists k,
                    (k + 7 <= length (training_rows costs))%nat
                    /\ y == np_sum (firstn 7 (skipn k (training_rows costs))) / 7)
                 (predicted e))
  /\ ((2 <= length costs <= 8)%nat ->
     exists e,
       report_evaluator costs = Ok e
       /\ Forall (fun y => y == np_sum (training_rows costs) / 7) (predicted e)).
Proof.
  pose proof (split_idx_value (length costs)) as Hv.
  unfold training_rows, report_evaluator. cbv zeta. unfold Qlen.
  set (split_idx := Z.to_nat (Qfloor (inject_Z (Z.of_nat (length costs)) * (8 # 10)))) in *.
  pose proof (Z.div_mod (Z.of_nat (length costs) * 8) 10 ltac:(lia)) as Hdm.
  pose proof (Z.mod_pos_bound (Z.of_nat (length costs) * 8) 10 ltac:(lia)) as Hmod.
  split; intro Hn.
  - destruct (convolve_week_long (firstn split_idx costs)) as [ma [Ema Hma]].
    { rewrite length_firstn. lia. }
    rewrite Ema. cbn [bind]. eexists. split; [reflexivity|].
    cbn [predicted evaluator].
    apply Forall_firstn_of, Forall_last_k. exact Hma.
  - destruct (convolve_week_short (firstn split_idx costs)) as [ma [Ema Hma]].
    { apply nonempty_length. rewrite length_firstn. lia. }
    { rewrite length_firstn. lia. }
    rewrite Ema. cbn [bind]. eexists. split; [reflexivity|].
    cbn [predicted evaluator].
    apply Forall_firstn_of, Forall_last_k. exact Hma.
Qed.

Lemma report_evaluator_prediction_witness :
  (exists e,
     report_evaluator [1; 2; 3; 4; 5; 6; 7; 8; 9; 10] = Ok e
     /\ Forall (fun y => exists k,
                  (k + 7 <= length (training_rows [1; 2; 3; 4; 5; 6; 7; 8; 9; 10]%Q))%nat
                  /\ y == np_sum (firstn 7 (skipn k
                            (training_rows [1; 2; 3; 4; 5; 6; 7; 8; 9; 10]))) / 7)
               (predicted e))
  /\ (exists e,
        report_evaluator [7; 14; 21] = Ok e
        /\ Forall (fun y => y == np_sum (training_rows [7; 14; 21]) / 7) (predicted e)).
Proof.
  split.
  - destruct (report_evaluator_prediction [1; 2; 3; 4; 5; 6; 7; 8; 9; 10]) as [H _].
    apply H. simpl. lia.
  - destruct (report_evaluator_prediction [7; 14; 21]) as [_ H].
    apply H. simpl. lia.
Defined.
